(** * docker/get_version.py: the version resolver

    The script computes the path of [superset-frontend/package.json] from its
    own location, opens it, decodes it with [json.load], subscripts the result
    with the key [version] and prints what it finds.

    The script is ten lines long; what it does is decided by the Python
    runtime it calls.  The development therefore has two layers:

    - a model of the runtime pieces the script uses ([posixpath], [open] and
      the [with] statement, [json.load] as CPython's decoder implements it,
      subscription, [str]/[repr] and [print]);
    - the script itself, translated statement by statement on top of that.

    The model works on text: a file is given by the text that text mode
    decodes it to, and standard output is the text written to [sys.stdout];
    the bytes under either are left out.  So are the traceback on standard
    error, of which only the exit status is kept, and the limits of the
    interpreter's resources (the recursion depth, the digit limit of [int],
    memory). *)

From Stdlib Require Import Ascii String.
From Stdlib Require DecimalFacts DecimalPos.
From stdpp Require Import base option list gmap.

Local Open Scope N_scope.
Local Open Scope list_scope.

(** ** Python [str]

    A Python [str] is a sequence of Unicode code points. *)

Definition char := N.
Definition str := list N.

(** [u s] is the [str] with the characters of the ASCII literal [s]. *)
Definition u (s : string) : str := map N_of_ascii (list_ascii_of_string s).

(** [q s] is [u s] with every apostrophe turned into a double quote: JSON
    text can be written down without a quote inside a Rocq string. *)
Definition q (s : string) : str := map (fun c => if c =? 39 then 34 else c) (u s).

Module Str.

Definition startswith (prefix s : str) : bool :=
  bool_decide (take (length prefix) s = prefix).

Definition endswith (suffix s : str) : bool :=
  bool_decide (drop (length s - length suffix)%nat s = suffix)
  && bool_decide (length suffix <= length s)%nat.

(** [s.rstrip(c)] for a one-character [c]. *)
Fixpoint rstrip (c : char) (s : str) : str :=
  match s with
  | [] => []
  | x :: s' =>
      match rstrip c s' with
      | [] => if x =? c then [] else [x]
      | r => x :: r
      end
  end.

(** [s.rfind(c) + 1] for a one-character [c]: the index just after the
    last occurrence of [c], and [0] when there is none ([rfind] is [-1]). *)
Fixpoint rfind_succ (c : char) (s : str) : nat :=
  match s with
  | [] => 0%nat
  | x :: s' =>
      match rfind_succ c s' with
      | O => if x =? c then 1%nat else 0%nat
      | S k => S (S k)
      end
  end.

(** [s.split(c)] for a one-character [c]. *)
Fixpoint split (c : char) (s : str) : list str :=
  match s with
  | [] => [[]]
  | x :: s' =>
      if x =? c then [] :: split c s'
      else match split c s' with
           | h :: t => (x :: h) :: t
           | [] => [[x]]
           end
  end.

(** [sep.join(parts)]. *)
Fixpoint join (sep : str) (parts : list str) : str :=
  match parts with
  | [] => []
  | [p] => p
  | p :: ps => p ++ sep ++ join sep ps
  end.

(** [c * n]. *)
Definition times (c : char) (n : nat) : str := replicate n c.

End Str.

(** ** [posixpath]: [os.path] on the platform the image runs on *)

Module posixpath.

Definition sep_char : char := 47.
Definition sep : str := [sep_char].
Definition pardir : str := u "..".
Definition curdir : str := u ".".

Definition isabs (s : str) : bool := Str.startswith sep s.

(** [join(a, *p)] *)
Definition join (a : str) (p : list str) : str :=
  fold_left
    (fun path b =>
       if Str.startswith sep b then b
       else if bool_decide (path = []) || Str.endswith sep path then path ++ b
       else path ++ sep ++ b)
    p a.

(** [dirname(p)] *)
Definition dirname (p : str) : str :=
  let i := Str.rfind_succ sep_char p in
  let head := take i p in
  if negb (bool_decide (head = []))
     && negb (bool_decide (head = Str.times sep_char (length head)))
  then Str.rstrip sep_char head
  else head.

(** The loop body of [normpath]. *)
Definition normpath_step (initial_slashes : nat) (new_comps : list str)
    (comp : str) : list str :=
  if bool_decide (comp = []) || bool_decide (comp = curdir) then new_comps
  else if negb (bool_decide (comp = pardir))
          || (bool_decide (initial_slashes = 0%nat)
              && bool_decide (new_comps = []))
          || (negb (bool_decide (new_comps = []))
              && bool_decide (last new_comps = Some pardir))
  then new_comps ++ [comp]
  else if negb (bool_decide (new_comps = [])) then removelast new_comps
  else new_comps.

(** [normpath(path)] *)
Definition normpath (path : str) : str :=
  if bool_decide (path = []) then curdir
  else
    let initial_slashes :=
      if Str.startswith sep path then
        if Str.startswith (Str.times sep_char 2) path
           && negb (Str.startswith (Str.times sep_char 3) path)
        then 2%nat else 1%nat
      else 0%nat in
    let comps := Str.split sep_char path in
    let comps := fold_left (normpath_step initial_slashes) comps [] in
    let path := Str.join sep comps in
    let path := Str.times sep_char initial_slashes ++ path in
    if bool_decide (path = []) then curdir else path.

(** [abspath(path)]; [cwd] is what [os.getcwd()] returns. *)
Definition abspath (cwd : str) (path : str) : str :=
  normpath (if isabs path then path else join cwd [path]).

End posixpath.

(** ** Python values and exceptions *)

(** A [float] that the decoder can produce: one of the three constants that
    [parse_constant] maps to [float('nan')], [float('inf')] and
    [float('-inf')], or [float(lexeme)] for a number lexeme with a fraction
    or an exponent.  The lexeme is kept; no binary64 arithmetic is modelled. *)
Inductive pyfloat :=
| FNaN
| FInf
| FNegInf
| FLit (lexeme : str).

(** The values [json.load] returns.  A [dict] keeps its items in insertion
    order, with one item per key. *)
#[warnings="-register-all"]
Inductive value :=
| PyNone
| PyBool (b : bool)
| PyInt (z : Z)
| PyFloat (f : pyfloat)
| PyStr (s : str)
| PyList (items : list value)
| PyDict (items : list (str * value)).

Inductive exn :=
| FileNotFoundError (filename : str)
| IsADirectoryError (filename : str)
| PermissionError (filename : str)
| JSONDecodeError (msg : string)
| KeyError (key : str)
| TypeError (msg : string)
| ValueError (msg : string)
| RecursionError.

Inductive result (A : Type) :=
| Ok (a : A)
| Raise (e : exn).
Arguments Ok {A} a.
Arguments Raise {A} e.

#[global] Instance result_ret : MRet result := @Ok.
#[global] Instance result_bind : MBind result := fun A B k r =>
  match r with
  | Ok a => k a
  | Raise e => Raise e
  end.

(** *** [dict] *)

Module dict.

(** [d[key] = v]: an existing key keeps its place, a new one goes last. *)
Fixpoint setitem (key : str) (v : value) (d : list (str * value))
    : list (str * value) :=
  match d with
  | [] => [(key, v)]
  | (k, w) :: d' =>
      if bool_decide (k = key) then (k, v) :: d'
      else (k, w) :: setitem key v d'
  end.

(** The lookup of [d[key]]; [None] is the [KeyError] case. *)
Fixpoint get (key : str) (d : list (str * value)) : option value :=
  match d with
  | [] => None
  | (k, w) :: d' => if bool_decide (k = key) then Some w else get key d'
  end.

(** [dict(pairs)] *)
Definition of_pairs (pairs : list (str * value)) : list (str * value) :=
  fold_left (fun d kv => setitem kv.1 kv.2 d) pairs [].

End dict.

(** ** [json]: the decoder behind [json.load]

    The functions follow CPython's [json.decoder] / [json.scanner] and their
    C accelerator [_json.c], in the default configuration [json.load] uses:
    [strict=True], no hooks, [parse_float=float], [parse_int=int] and the
    default [parse_constant].  They work on the text that is left to read
    instead of on an index into it; error positions are not kept. *)

Module json.

Definition is_whitespace (c : char) : bool :=
  (c =? 32) || (c =? 9) || (c =? 10) || (c =? 13).

Fixpoint skip_whitespace (s : str) : str :=
  match s with
  | c :: s' => if is_whitespace c then skip_whitespace s' else s
  | [] => []
  end.

Definition is_digit (c : char) : bool := (48 <=? c) && (c <=? 57).

(** The value of a hexadecimal digit. *)
Definition hex_digit (c : char) : option N :=
  if (48 <=? c) && (c <=? 57) then Some (c - 48)
  else if (97 <=? c) && (c <=? 102) then Some (c - 97 + 10)
  else if (65 <=? c) && (c <=? 70) then Some (c - 65 + 10)
  else None.

(** The four hexadecimal digits of a [\uXXXX] escape. *)
Definition decode_uXXXX (a b c d : char) : option N :=
  x1 ← hex_digit a; x2 ← hex_digit b; x3 ← hex_digit c; x4 ← hex_digit d;
  Some (N.lor (N.shiftl (N.lor (N.shiftl (N.lor (N.shiftl x1 4) x2) 4) x3) 4) x4).

Definition is_high_surrogate (c : N) : bool := (0xD800 <=? c) && (c <=? 0xDBFF).
Definition is_low_surrogate (c : N) : bool := (0xDC00 <=? c) && (c <=? 0xDFFF).
Definition join_surrogates (hi lo : N) : N :=
  0x10000 + N.lor (N.shiftl (N.land hi 0x03FF) 10) (N.land lo 0x03FF).

(** [BACKSLASH]: the one-character escapes. *)
Definition BACKSLASH (esc : char) : option char :=
  if esc =? 34 then Some 34            (* quote *)
  else if esc =? 92 then Some 92       (* backslash *)
  else if esc =? 47 then Some 47       (* slash *)
  else if esc =? 98 then Some 8        (* b: backspace *)
  else if esc =? 102 then Some 12      (* f: form feed *)
  else if esc =? 110 then Some 10      (* n: line feed *)
  else if esc =? 114 then Some 13      (* r: carriage return *)
  else if esc =? 116 then Some 9       (* t: tab *)
  else None.

Definition emit (c : char) (r : result (str * str)) : result (str * str) :=
  '(chunk, rest) ← r; Ok (c :: chunk, rest).

(** [scanstring(s, end)], called on the text after the opening quote:
    the decoded string and the text after the closing quote. *)
Fixpoint scanstring (s : str) : result (str * str) :=
  match s with
  | [] => Raise (JSONDecodeError "Unterminated string starting at")
  | c :: s1 =>
      if c =? 34 then Ok ([], s1)
      else if c =? 92 then
        match s1 with
        | [] => Raise (JSONDecodeError "Unterminated string starting at")
        | esc :: s2 =>
            if esc =? 117 then
              match s2 with
              | a :: b :: c :: d :: ((_ :: _) as s3) =>
                  match decode_uXXXX a b c d with
                  | None => Raise (JSONDecodeError "Invalid \uXXXX escape")
                  | Some uni =>
                      if is_high_surrogate uni then
                        match s3 with
                        | b1 :: b2 :: e :: f :: g :: h :: ((_ :: _) as s4) =>
                            if (b1 =? 92) && (b2 =? 117) then
                              match decode_uXXXX e f g h with
                              | None =>
                                  Raise (JSONDecodeError "Invalid \uXXXX escape")
                              | Some uni2 =>
                                  if is_low_surrogate uni2
                                  then emit (join_surrogates uni uni2) (scanstring s4)
                                  else emit uni (scanstring s3)
                              end
                            else emit uni (scanstring s3)
                        | _ => emit uni (scanstring s3)
                        end
                      else emit uni (scanstring s3)
                  end
              | _ => Raise (JSONDecodeError "Invalid \uXXXX escape")
              end
            else
              match BACKSLASH esc with
              | Some c' => emit c' (scanstring s2)
              | None => Raise (JSONDecodeError "Invalid \escape")
              end
        end
      else if c <=? 0x1f then
        Raise (JSONDecodeError "Invalid control character at")
      else emit c (scanstring s1)
  end.

(** The longest prefix of digits, and what follows it. *)
Fixpoint digits (s : str) : str * str :=
  match s with
  | c :: s' =>
      if is_digit c then let '(ds, rest) := digits s' in (c :: ds, rest)
      else ([], s)
  | [] => ([], [])
  end.

(** [NUMBER_RE] has three groups: the integer part (an optional minus
    sign, then a single zero or a nonzero digit followed by digits), an
    optional fraction (a dot and at least one digit) and an optional
    exponent (e or E, an optional sign and at least one digit).  An absent
    group is returned empty. *)
Definition match_integer (s : str) : option (str * str) :=
  let '(sign, s1) :=
    match s with
    | c :: s' => if c =? 45 then ([c], s') else ([], s)
    | [] => ([], s)
    end in
  match s1 with
  | c :: s2 =>
      if c =? 48 then Some (sign ++ [c], s2)
      else if is_digit c then
        let '(ds, rest) := digits s2 in Some (sign ++ c :: ds, rest)
      else None
  | [] => None
  end.

Definition match_frac (s : str) : str * str :=
  match s with
  | dot :: s1 =>
      if dot =? 46 then
        match digits s1 with
        | ([], _) => ([], s)
        | (ds, rest) => (dot :: ds, rest)
        end
      else ([], s)
  | [] => ([], s)
  end.

Definition match_exp (s : str) : str * str :=
  match s with
  | e :: s1 =>
      if (e =? 101) || (e =? 69) then
        let '(sign, s2) :=
          match s1 with
          | c :: s' => if (c =? 45) || (c =? 43) then ([c], s') else ([], s1)
          | [] => ([], s1)
          end in
        match digits s2 with
        | ([], _) => ([], s)
        | (ds, rest) => (e :: sign ++ ds, rest)
        end
      else ([], s)
  | [] => ([], s)
  end.

Definition match_number (s : str) : option (str * str * str * str) :=
  '(integer, s1) ← match_integer s;
  let '(frac, s2) := match_frac s1 in
  let '(exp, s3) := match_exp s2 in
  Some (integer, frac, exp, s3).

(** [int(lexeme)] for a lexeme matched by the first group of [NUMBER_RE]. *)
Definition int_of_digits (ds : str) : Z :=
  fold_left (fun acc c => (10 * acc + Z.of_N (c - 48))%Z) ds 0%Z.

Definition parse_int (lexeme : str) : Z :=
  match lexeme with
  | c :: ds => if c =? 45 then (- int_of_digits ds)%Z else int_of_digits lexeme
  | [] => 0%Z
  end.

Definition expect_value {A} : result A :=
  Raise (JSONDecodeError "Expecting value").

Section Decoder.

(** [parse_constant]: the hook the scanner calls with the name of a
    constant that JSON does not have, [NaN], [Infinity] or
    [-Infinity]. *)
Variable parse_constant : str -> result value.

(** The cases of [scan_once] that read no nested value: the three
    literals, a number, and the three names given to [parse_constant].
    [s] is the text from [nextchar] on. *)
Definition scan_scalar (nextchar : char) (s : str) : result (value * str) :=
  if (nextchar =? 110) && Str.startswith (u "null") s then
    Ok (PyNone, drop 4 s)
  else if (nextchar =? 116) && Str.startswith (u "true") s then
    Ok (PyBool true, drop 4 s)
  else if (nextchar =? 102) && Str.startswith (u "false") s then
    Ok (PyBool false, drop 5 s)
  else
    match match_number s with
    | Some (integer, frac, exp, rest) =>
        if negb (bool_decide (frac = [])) || negb (bool_decide (exp = []))
        then Ok (PyFloat (FLit (integer ++ frac ++ exp)), rest)
        else Ok (PyInt (parse_int integer), rest)
    | None =>
        if (nextchar =? 78) && Str.startswith (u "NaN") s then
          v ← parse_constant (u "NaN"); Ok (v, drop 3 s)
        else if (nextchar =? 73) && Str.startswith (u "Infinity") s then
          v ← parse_constant (u "Infinity"); Ok (v, drop 8 s)
        else if (nextchar =? 45) && Str.startswith (u "-Infinity") s then
          v ← parse_constant (u "-Infinity"); Ok (v, drop 9 s)
        else expect_value
    end.

(** [scan_once], and the loops of [JSONObject] and [JSONArray].  The
    two loops and the recursion into nested values share one [fuel];
    [decode] below gives more than any text can use.

    [JSONObject fuel s pairs] is one round of the loop that reads the
    members of an object: [s] starts at a key and [pairs] holds the
    members read so far.  It returns all the members, in the order of
    the text; [scan_once] turns them into a [dict].
    [JSONArray fuel s values] is one round of the loop that reads the
    elements of an array. *)
Fixpoint scan_once (fuel : nat) (s : str) : result (value * str) :=
  match fuel with
  | O => Raise RecursionError
  | S fuel =>
      match s with
      | [] => expect_value
      | nextchar :: s1 =>
          if nextchar =? 34 then
            '(x, rest) ← scanstring s1; Ok (PyStr x, rest)
          else if nextchar =? 123 then
            '(pairs, rest) ←
              match skip_whitespace s1 with
              | c :: s2 =>
                  if c =? 125 then Ok ([], s2)
                  else JSONObject fuel (c :: s2) []
              | [] => JSONObject fuel [] []
              end;
            Ok (PyDict (dict.of_pairs pairs), rest)
          else if nextchar =? 91 then
            match skip_whitespace s1 with
            | c :: s2 =>
                if c =? 93 then Ok (PyList [], s2)
                else JSONArray fuel (c :: s2) []
            | [] => JSONArray fuel [] []
            end
          else scan_scalar nextchar s
      end
  end

with JSONObject (fuel : nat) (s : str) (pairs : list (str * value))
    : result (list (str * value) * str) :=
  match fuel with
  | O => Raise RecursionError
  | S fuel =>
      match s with
      | quote :: s1 =>
          if quote =? 34 then
            '(key, s2) ← scanstring s1;
            match skip_whitespace s2 with
            | colon :: s3 =>
                if colon =? 58 then
                  '(val, s4) ← scan_once fuel (skip_whitespace s3);
                  let pairs := pairs ++ [(key, val)] in
                  match skip_whitespace s4 with
                  | c :: s5 =>
                      if c =? 125 then Ok (pairs, s5)
                      else if c =? 44 then
                        JSONObject fuel (skip_whitespace s5) pairs
                      else Raise (JSONDecodeError "Expecting ',' delimiter")
                  | [] => Raise (JSONDecodeError "Expecting ',' delimiter")
                  end
                else Raise (JSONDecodeError "Expecting ':' delimiter")
            | [] => Raise (JSONDecodeError "Expecting ':' delimiter")
            end
          else
            Raise (JSONDecodeError
                     "Expecting property name enclosed in double quotes")
      | [] =>
          Raise (JSONDecodeError
                   "Expecting property name enclosed in double quotes")
      end
  end

with JSONArray (fuel : nat) (s : str) (values : list value)
    : result (value * str) :=
  match fuel with
  | O => Raise RecursionError
  | S fuel =>
      '(val, s1) ← scan_once fuel s;
      let values := values ++ [val] in
      match skip_whitespace s1 with
      | c :: s2 =>
          if c =? 93 then Ok (PyList values, s2)
          else if c =? 44 then JSONArray fuel (skip_whitespace s2) values
          else Raise (JSONDecodeError "Expecting ',' delimiter")
      | [] => Raise (JSONDecodeError "Expecting ',' delimiter")
      end
  end.

(** [JSONDecoder.decode]: one value, with whitespace around it and
    nothing else. *)
Definition decode (s : str) : result value :=
  '(obj, rest) ← scan_once (S (2 * length s)) (skip_whitespace s);
  match skip_whitespace rest with
  | [] => Ok obj
  | _ :: _ => Raise (JSONDecodeError "Extra data")
  end.

(** The members of the object that [s] holds, in the order of the
    text and with their repetitions: what [decode] makes the [dict]
    from, when the value it reads is an object with a member in it. *)
Definition object_pairs (s : str) : result (list (str * value)) :=
  match skip_whitespace s with
  | brace :: s1 =>
      if brace =? 123 then
        '(pairs, rest) ←
          match skip_whitespace s1 with
          | c :: s2 =>
              if c =? 125 then Ok ([], s2)
              else JSONObject (2 * length s) (c :: s2) []
          | [] => JSONObject (2 * length s) [] []
          end;
        match skip_whitespace rest with
        | [] => Ok pairs
        | _ :: _ => Raise (JSONDecodeError "Extra data")
        end
      else expect_value
  | [] => expect_value
  end.

End Decoder.

(** [_CONSTANTS.__getitem__], the default [parse_constant]. *)
Definition _CONSTANTS (name : str) : result value :=
  if bool_decide (name = u "-Infinity") then Ok (PyFloat FNegInf)
  else if bool_decide (name = u "Infinity") then Ok (PyFloat FInf)
  else if bool_decide (name = u "NaN") then Ok (PyFloat FNaN)
  else Raise (KeyError name).

(** [json.loads(s)] for a [str]. *)
Definition loads (s : str) : result value :=
  if Str.startswith [0xFEFF] s then
    Raise (JSONDecodeError "Unexpected UTF-8 BOM (decode using utf-8-sig)")
  else decode _CONSTANTS s.

End json.

(** ** [str()] and [repr()]

    Two things these functions consult are outside the program: how a
    binary64 value prints, and the Unicode database.  They are the two
    fields of [Platform]. *)

Class Platform := {
  (** [repr(float(lexeme))] for a number lexeme of the decoder *)
  float_repr : str -> str;
  (** [Py_UNICODE_ISPRINTABLE] on a code point from 0x80 on *)
  isprintable : char -> bool;
}.

Module builtins.
Section Rendering.
Context `{Platform}.

Definition digit_char (d : N) : char := 48 + d.

Fixpoint uint_str (d : Decimal.uint) : str :=
  match d with
  | Decimal.Nil => []
  | Decimal.D0 d => digit_char 0 :: uint_str d
  | Decimal.D1 d => digit_char 1 :: uint_str d
  | Decimal.D2 d => digit_char 2 :: uint_str d
  | Decimal.D3 d => digit_char 3 :: uint_str d
  | Decimal.D4 d => digit_char 4 :: uint_str d
  | Decimal.D5 d => digit_char 5 :: uint_str d
  | Decimal.D6 d => digit_char 6 :: uint_str d
  | Decimal.D7 d => digit_char 7 :: uint_str d
  | Decimal.D8 d => digit_char 8 :: uint_str d
  | Decimal.D9 d => digit_char 9 :: uint_str d
  end.

(** [repr] of an [int]: decimal, with a minus sign when negative. *)
Definition int_repr (z : Z) : str :=
  match z with
  | Z0 => u "0"
  | Zpos p => uint_str (Pos.to_uint p)
  | Zneg p => 45 :: uint_str (Pos.to_uint p)
  end.

Definition hexdigit (n : N) : char :=
  if n <? 10 then 48 + n else 97 + (n - 10).

(** The digits of [ch] in base 16, [width] of them. *)
Fixpoint hex (width : nat) (ch : N) : str :=
  match width with
  | O => []
  | S w => hex w (N.shiftr ch 4) ++ [hexdigit (N.land ch 15)]
  end.

(** One character of [repr] of a [str], inside the quote [quote]. *)
Definition repr_char (quote : char) (ch : char) : str :=
  if (ch =? quote) || (ch =? 92) then [92; ch]
  else if ch =? 9 then u "\t"
  else if ch =? 10 then u "\n"
  else if ch =? 13 then u "\r"
  else if (ch <? 32) || (ch =? 0x7f) then u "\x" ++ hex 2 ch
  else if ch <? 0x7f then [ch]
  else if isprintable ch then [ch]
  else if ch <=? 0xff then u "\x" ++ hex 2 ch
  else if ch <=? 0xffff then u "\u" ++ hex 4 ch
  else u "\U" ++ hex 8 ch.

(** [repr] of a [str]: single quotes, unless the string has a single
    quote and no double quote. *)
Definition str_repr (s : str) : str :=
  let squote := bool_decide (39 ∈ s) in
  let dquote := bool_decide (34 ∈ s) in
  let quote := if squote && negb dquote then 34 else 39 in
  quote :: concat (map (repr_char quote) s) ++ [quote].

Definition float_str (f : pyfloat) : str :=
  match f with
  | FNaN => u "nan"
  | FInf => u "inf"
  | FNegInf => u "-inf"
  | FLit lexeme => float_repr lexeme
  end.

Fixpoint repr (v : value) : str :=
  match v with
  | PyNone => u "None"
  | PyBool true => u "True"
  | PyBool false => u "False"
  | PyInt z => int_repr z
  | PyFloat f => float_str f
  | PyStr s => str_repr s
  | PyList items => u "[" ++ Str.join (u ", ") (map repr items) ++ u "]"
  | PyDict items =>
      u "{"
      ++ Str.join (u ", ")
           (map (fun '(k, w) => str_repr k ++ u ": " ++ repr w) items)
      ++ u "}"
  end.

(** [str(v)]: a [str] is itself, every other type prints as its [repr]. *)
Definition str_ (v : value) : str :=
  match v with
  | PyStr s => s
  | _ => repr v
  end.

End Rendering.

(** [obj[key]] for a [str] key *)
Definition getitem (obj : value) (key : str) : result value :=
  match obj with
  | PyDict d =>
      match dict.get key d with
      | Some v => Ok v
      | None => Raise (KeyError key)
      end
  | PyList _ =>
      Raise (TypeError "list indices must be integers or slices, not str")
  | PyStr _ => Raise (TypeError "string indices must be integers, not 'str'")
  | PyNone => Raise (TypeError "'NoneType' object is not subscriptable")
  | PyBool _ => Raise (TypeError "'bool' object is not subscriptable")
  | PyInt _ => Raise (TypeError "'int' object is not subscriptable")
  | PyFloat _ => Raise (TypeError "'float' object is not subscriptable")
  end.

End builtins.

(** ** The world the script runs in *)

(** What a path resolves to.  [text] is the content of the file as text mode
    hands it over, that is decoded and with its line ends translated. *)
Inductive node :=
| Directory
| RegularFile (readable : bool) (text : str).

Record World := {
  (** the file system: what each path resolves to *)
  fs : gmap str node;
  (** the open file objects, each with the text it has not read yet *)
  open_files : gmap nat str;
  (** every path given to [open], oldest first *)
  opened : list str;
  (** what has been written to [sys.stdout] *)
  stdout : str;
}.

(** A computation that can read and change the world and can raise. *)
Definition IO (A : Type) : Type := World -> result A * World.

#[global] Instance IO_ret : MRet IO := fun A a w => (Ok a, w).
#[global] Instance IO_bind : MBind IO := fun A B k m w =>
  match m w with
  | (Ok a, w') => k a w'
  | (Raise e, w') => (Raise e, w')
  end.

Definition lift {A} (r : result A) : IO A := fun w => (r, w).

Module io.

(** [open(file, "r")] *)
Definition open (file : str) : IO nat := fun w =>
  let w := {| fs := fs w; open_files := open_files w;
              opened := opened w ++ [file]; stdout := stdout w |} in
  match fs w !! file with
  | None => (Raise (FileNotFoundError file), w)
  | Some Directory => (Raise (IsADirectoryError file), w)
  | Some (RegularFile false _) => (Raise (PermissionError file), w)
  | Some (RegularFile true text) =>
      let f := fresh (dom (open_files w)) in
      (Ok f, {| fs := fs w; open_files := <[f := text]> (open_files w);
                opened := opened w; stdout := stdout w |})
  end.

(** [f.read()] *)
Definition read (f : nat) : IO str := fun w =>
  match open_files w !! f with
  | None => (Raise (ValueError "I/O operation on closed file."), w)
  | Some text =>
      (Ok text, {| fs := fs w; open_files := <[f := []]> (open_files w);
                   opened := opened w; stdout := stdout w |})
  end.

(** [f.close()] *)
Definition close (f : nat) (w : World) : World :=
  {| fs := fs w; open_files := delete f (open_files w);
     opened := opened w; stdout := stdout w |}.

(** [with cm as f: body] for a file object: [__exit__] closes the file on
    the way out, whether [body] returned or raised, and lets an exception
    through. *)
Definition with_ {A} (cm : IO nat) (body : nat -> IO A) : IO A := fun w =>
  match cm w with
  | (Raise e, w1) => (Raise e, w1)
  | (Ok f, w1) => let '(r, w2) := body f w1 in (r, close f w2)
  end.

End io.

(** [json.load(fp)] is [json.loads(fp.read())]. *)
Definition json_load (fp : nat) : IO value :=
  text ← io.read fp; lift (json.loads text).

(** [print(obj)] *)
Definition print `{Platform} (obj : value) : IO unit := fun w =>
  (Ok (), {| fs := fs w; open_files := open_files w; opened := opened w;
             stdout := stdout w ++ builtins.str_ obj ++ [10] |}).

(** ** The script *)

(** What the interpreter hands to the script: the value of [__file__] and
    the working directory [os.getcwd()] reports. *)
Record Env := {
  __file__ : str;
  getcwd : str;
}.

Section Script.
Context `{Platform} (env : Env).

Definition BASE_DIR : str :=
  posixpath.abspath (getcwd env)
    (posixpath.join (posixpath.dirname (__file__ env)) [posixpath.pardir]).

Definition PACKAGE_JSON : str :=
  posixpath.join BASE_DIR [u "superset-frontend"; u "package.json"].

Definition get_version : IO unit :=
  version_string ←
    io.with_ (io.open PACKAGE_JSON) (fun package_file =>
      obj ← json_load package_file;
      lift (builtins.getitem obj (u "version")));
  print version_string.

(** The exit status of the interpreter: 0 when the script ran to its end,
    1 when an exception reached the top level. *)
Definition exit_status {A} (r : result A) : Z :=
  match r with
  | Ok _ => 0
  | Raise _ => 1
  end.

(** What one invocation wrote to standard output. *)
Definition written (before after : World) : str :=
  drop (length (stdout before)) (stdout after).

End Script.

(** * What the properties are stated with *)

(** ** Paths by their components *)

Section PathVocabulary.
Import posixpath.

(** A path component: not empty and without a separator. *)
Definition component (c : str) : Prop := c ≠ [] ∧ sep_char ∉ c.

(** A component that names a directory entry: neither [.] nor [..]. *)
Definition proper (c : str) : Prop :=
  component c ∧ c ≠ curdir ∧ c ≠ pardir.



End PathVocabulary.

(** ** Classes of exceptions *)

Definition is_JSONDecodeError (e : exn) : Prop := ∃ msg, e = JSONDecodeError msg.

(** The subclasses of [OSError] that [open] raises. *)
Definition is_OSError (e : exn) : Prop :=
  match e with
  | FileNotFoundError _ | IsADirectoryError _ | PermissionError _ => True
  | _ => False
  end.

Definition is_KeyError (e : exn) : Prop := ∃ key, e = KeyError key.
Definition is_TypeError (e : exn) : Prop := ∃ msg, e = TypeError msg.

(** ** Progress of the scanner *)


(** ** One invocation *)

Section Invocation.
Context `{Platform} (env : Env).

(** What the [with] block binds [version_string] to, or what it raises,
    given what [PACKAGE_JSON] resolves to. *)
Definition version_string (n : option node) : result value :=
  match n with
  | None => Raise (FileNotFoundError (PACKAGE_JSON env))
  | Some Directory => Raise (IsADirectoryError (PACKAGE_JSON env))
  | Some (RegularFile false _) => Raise (PermissionError (PACKAGE_JSON env))
  | Some (RegularFile true text) =>
      obj ← json.loads text; builtins.getitem obj (u "version")
  end.

(** The exit status of an invocation in the world [w], and the text it
    adds to standard output. *)
Definition status (w : World) : Z := exit_status (get_version env w).1.
Definition output (w : World) : str := written w (get_version env w).2.

End Invocation.

(** ** Values all through *)

(** [every Q v]: [Q] holds of [v] and of every value inside [v]. *)
Fixpoint every (Q : value -> Prop) (v : value) : Prop :=
  Q v
  ∧ match v with
    | PyList items =>
        (fix go (l : list value) : Prop :=
           match l with
           | [] => True
           | x :: l' => every Q x ∧ go l'
           end) items
    | PyDict items =>
        (fix go (l : list (str * value)) : Prop :=
           match l with
           | [] => True
           | (_, x) :: l' => every Q x ∧ go l'
           end) items
    | _ => True
    end.

(** A [dict] has no key twice. *)
Definition distinct_keys (v : value) : Prop :=
  match v with
  | PyDict items => NoDup items.*1
  | _ => True
  end.

(** The characters of a number: digits, signs, the dot and the exponent
    mark. *)
Definition number_char (c : char) : Prop :=
  (48 <= c ∧ c <= 57) ∨ c = 45 ∨ c = 43 ∨ c = 46 ∨ c = 101 ∨ c = 69.



(** A text of nothing but the four characters the decoder skips. *)
Definition whitespace (s : str) : Prop :=
  Forall (fun c => json.is_whitespace c = true) s.

(** ** JSON proper

    [json.load] reads more than JSON: its scanner also takes the names
    [NaN], [Infinity] and [-Infinity], which RFC 8259 excludes, and hands
    them to [parse_constant].  A text is JSON when the decoder accepts it
    with a [parse_constant] that refuses the three names. *)



(** ** Objects written out

    The text of an object whose keys and values are strings that need no
    escape, written the way [json.dumps] separates members. *)

(** A character that stands for itself inside a JSON string. *)
Definition plain_char (c : char) : Prop := c ≠ 34 ∧ c ≠ 92 ∧ 31 < c.

Definition plain (s : str) : Prop := Forall plain_char s.

Definition quoted (s : str) : str := [34] ++ s ++ [34].

Definition member_text (kv : str * str) : str :=
  quoted kv.1 ++ u ": " ++ quoted kv.2.

Definition object_text (members : list (str * str)) : str :=
  [123] ++ Str.join (u ", ") (map member_text members) ++ [125].

(** The members as the decoder returns them. *)
Definition member_pair (kv : str * str) : str * value := (kv.1, PyStr kv.2).

(** ** An installation to run examples in

    The script is [/app/docker/get_version.py]; the examples have no
    [float] and no character outside ASCII in what they print, so that the
    platform is not consulted. *)

Definition example_platform : Platform :=
  {| float_repr := fun lexeme => lexeme; isprintable := fun _ => false |}.

Definition example_env : Env :=
  {| __file__ := u "/app/docker/get_version.py"; getcwd := u "/app" |}.

Definition example_manifest : str := u "/app/superset-frontend/package.json".

(** A world with nothing in it but [node] at the manifest path. *)
Definition example_world (n : node) : World :=
  {| fs := {[ example_manifest := n ]}; open_files := ∅; opened := [];
     stdout := [] |}.

(** A world with no file at all. *)
Definition empty_world : World :=
  {| fs := ∅; open_files := ∅; opened := []; stdout := [] |}.

(** * Properties *)

(** ** The model at work

    What the modelled functions return on inputs whose result under
    CPython 3.11 is known. *)

Example dirname_examples :
  posixpath.dirname (u "/app/docker/get_version.py") = u "/app/docker"
  ∧ posixpath.dirname (u "get_version.py") = []
  ∧ posixpath.dirname (u "//get_version.py") = u "//"
  ∧ posixpath.dirname (u "a//b.py") = u "a".
Proof. by vm_compute. Qed.

Example normpath_examples :
  posixpath.normpath (u "//a/./b/../../../c//d/") = u "//c/d"
  ∧ posixpath.normpath (u "a/../../b") = u "../b"
  ∧ posixpath.normpath (u "///a") = u "/a"
  ∧ posixpath.normpath [] = u "."
  ∧ posixpath.normpath (u "/..") = u "/".
Proof. by vm_compute. Qed.

Example join_examples :
  posixpath.join (u "a") [u "/b"; u "c"] = u "/b/c"
  ∧ posixpath.join (u "a/") [u "b"] = u "a/b"
  ∧ posixpath.join [] [u "b"] = u "b"
  ∧ posixpath.join (u "/") [u "superset-frontend"; u "package.json"]
    = u "/superset-frontend/package.json".
Proof. by vm_compute. Qed.

Example PACKAGE_JSON_examples :
  PACKAGE_JSON {| __file__ := u "/app/docker/get_version.py"; getcwd := u "/" |}
  = u "/app/superset-frontend/package.json"
  ∧ PACKAGE_JSON {| __file__ := u "docker/get_version.py"; getcwd := u "/src" |}
    = u "/src/superset-frontend/package.json"
  ∧ PACKAGE_JSON {| __file__ := u "get_version.py"; getcwd := u "/src/docker" |}
    = u "/src/superset-frontend/package.json"
  ∧ PACKAGE_JSON {| __file__ := u "/get_version.py"; getcwd := u "/" |}
    = u "/superset-frontend/package.json".
Proof. by vm_compute. Qed.

Example loads_examples :
  json.loads (q "{'a': 1, 'b': [true, null], 'a': -2}")
  = Ok (PyDict [(u "a", PyInt (-2));
                (u "b", PyList [PyBool true; PyNone])])
  ∧ json.loads (q " [1.5e3, 'xA\n'] ")
    = Ok (PyList [PyFloat (FLit (u "1.5e3")); PyStr [120; 65; 10]])
  ∧ json.loads (q "'\ud83d\ude00 \ud83d'") = Ok (PyStr [0x1F600; 32; 0xD83D])
  ∧ json.loads (q "{'a':{'a':1,'a':'z'}}")
    = Ok (PyDict [(u "a", PyDict [(u "a", PyStr (u "z"))])])
  ∧ json.loads (u "NaN") = Ok (PyFloat FNaN)
  ∧ json.loads (u "-Infinity") = Ok (PyFloat FNegInf).
Proof. by vm_compute. Qed.

Example loads_error_examples :
  json.loads (u "[1,]") = Raise (JSONDecodeError "Expecting value")
  ∧ json.loads (u "01") = Raise (JSONDecodeError "Extra data")
  ∧ json.loads (q "{'a' 1}")
    = Raise (JSONDecodeError "Expecting ':' delimiter")
  ∧ json.loads [] = Raise (JSONDecodeError "Expecting value").
Proof. by vm_compute. Qed.

Example repr_examples :
  @builtins.repr example_platform
    (PyList [PyInt 1; PyInt (-20); PyBool true; PyNone;
             PyDict [(u "k", PyList [])]])
  = u "[1, -20, True, None, {'k': []}]"
  ∧ @builtins.repr example_platform (PyStr (u "it's")) = q "'it" ++ [39] ++ q "s'"
  ∧ @builtins.repr example_platform (PyStr (q "say 'hi'"))
    = [39] ++ q "say 'hi'" ++ [39]
  ∧ @builtins.repr example_platform (PyStr [127; 9; 92])
    = [39] ++ u "\x7f\t\\" ++ [39]
  ∧ @builtins.str_ example_platform (PyStr (u "4.1.0")) = u "4.1.0".
Proof. by vm_compute. Qed.

(** ** Paths *)

Section PathLemmas.
Import posixpath.

Lemma join_snoc (comps : list str) (c : str) :
  comps ≠ [] -> Str.join sep (comps ++ [c]) = Str.join sep comps ++ sep ++ c.
Proof.
  induction comps as [|a [|b comps] IH]; intros Hne; [done | done |].
  change (Str.join sep ((a :: b :: comps) ++ [c]))
    with (a ++ sep ++ Str.join sep ((b :: comps) ++ [c])).
  rewrite IH by done.
  change (Str.join sep (a :: b :: comps))
    with (a ++ sep ++ Str.join sep (b :: comps)).
  by rewrite <- !app_assoc.
Qed.

Lemma last_join (comps : list str) (c : str) :
  c ≠ [] -> last (Str.join sep (comps ++ [c])) = last c.
Proof.
  intros Hc. destruct comps as [|a comps]; [done|].
  rewrite join_snoc by done.
  rewrite !app_assoc. destruct c as [|x c] using rev_ind; [done|].
  by rewrite app_assoc, !last_snoc.
Qed.

Lemma component_last (c : str) : component c -> last c ≠ Some sep_char.
Proof.
  intros [Hne Hsep] Hl. destruct c as [|x c] using rev_ind; [done|].
  rewrite last_snoc in Hl. injection Hl as ->. apply Hsep. set_solver.
Qed.

Lemma startswith_sep (s : str) :
  Str.startswith sep s = bool_decide (head s = Some sep_char).
Proof.
  destruct s as [|x s]; [done|]. unfold Str.startswith, sep. simpl.
  rewrite take_0. apply bool_decide_ext. split; by intros [= ->].
Qed.

Lemma endswith_sep (s : str) :
  Str.endswith sep s = bool_decide (last s = Some sep_char).
Proof.
  destruct s as [|x s] using rev_ind; [done|].
  unfold Str.endswith, sep. rewrite last_snoc, length_app. simpl.
  replace (length s + 1 - 1)%nat with (length s) by lia.
  rewrite drop_app_length.
  rewrite (bool_decide_true (_ <= _)%nat) by lia.
  rewrite andb_true_r. apply bool_decide_ext. split; by intros [= ->].
Qed.












Lemma join_last (comps : list str) :
  comps ≠ [] -> Forall component comps ->
  Str.join sep comps ≠ [] ∧ last (Str.join sep comps) ≠ Some sep_char.
Proof.
  intros Hne Hall. destruct comps as [|c comps _] using rev_ind; [done|].
  apply Forall_app in Hall as [_ Hc]. inversion Hc as [|? ? Hcomp _]; subst.
  pose proof (last_join comps c (proj1 Hcomp)) as Hl.
  pose proof (component_last c Hcomp) as Hc'. split.
  - intros Heq. rewrite Heq in Hl. destruct Hcomp as [Hnil _].
    destruct c as [|y c _] using rev_ind; [done|]. by rewrite last_snoc in Hl.
  - by rewrite Hl.
Qed.











Lemma proper_component (comps : list str) :
  Forall proper comps -> Forall component comps.
Proof. intros Hall. eapply Forall_impl; [exact Hall|]. by intros c [? _]. Qed.





End PathLemmas.

(** ** The decoder *)

Section DecoderLemmas.
Import json.









Section Fuel.
Variable parse_constant : str -> result value.

(** [raises e]: a property of exceptions that every [JSONDecodeError]
    has, and whatever [parse_constant] raises. *)
Variable raises : exn -> Prop.
Hypothesis raises_JSONDecodeError : ∀ msg, raises (JSONDecodeError msg).
Hypothesis raises_parse_constant :
  ∀ name e, name ∈ [u "NaN"; u "Infinity"; u "-Infinity"] ->
            parse_constant name = Raise e -> raises e.







End Fuel.


Section Hooks.
(** Two [parse_constant] hooks, the second of which returns whatever the
    first returns. *)
Variables pc1 pc2 : str -> result value.
Hypothesis pc_le : ∀ name v, pc1 name = Ok v -> pc2 name = Ok v.

Lemma bind_Ok_inv {A B} (r : result A) (k : A -> result B) (b : B) :
  r ≫= k = Ok b -> ∃ a, r = Ok a ∧ k a = Ok b.
Proof. destruct r as [a|e]; [by exists a|done]. Qed.




End Hooks.




End DecoderLemmas.

(** ** One invocation *)

Section Resolver.
Context `{Platform} (env : Env).

Lemma close_open_read (m : gmap nat str) (text : str) :
  let f := fresh (dom m) in
  delete f (<[f := []]> (<[f := text]> m)) = m.
Proof.
  intros f. rewrite insert_insert_eq. apply delete_insert_id.
  apply not_elem_of_dom. apply is_fresh.
Qed.

Lemma close_open (m : gmap nat str) (text : str) :
  let f := fresh (dom m) in delete f (<[f := text]> m) = m.
Proof.
  intros f. apply delete_insert_id. apply not_elem_of_dom. apply is_fresh.
Qed.

(** The whole effect of one invocation: one [open], of [PACKAGE_JSON];
    the table of open files as it was; one line on standard output env when
    the [with] block ended with a value, nothing otherwise. *)
Lemma get_version_run (w : World) :
  get_version env w =
    let r := version_string env (fs w !! PACKAGE_JSON env) in
    (match r with Ok _ => Ok () | Raise e => Raise e end,
     {| fs := fs w;
        open_files := open_files w;
        opened := opened w ++ [PACKAGE_JSON env];
        stdout := match r with
                  | Ok v => stdout w ++ builtins.str_ v ++ [10]
                  | Raise _ => stdout w
                  end |}).
Proof.
  unfold get_version, version_string.
  generalize (PACKAGE_JSON env) (u "version"). intros P key.
  unfold mbind, IO_bind, io.with_, io.open.
  cbn [fs open_files opened stdout].
  destruct (fs w !! P) as [[|[] text]|] eqn:E; try done.
  unfold json_load, mbind, IO_bind, io.read, lift, io.close, print.
  cbn [fs open_files opened stdout].
  rewrite lookup_insert_eq. cbn [fs open_files opened stdout].
  destruct (json.loads text) as [obj|e]; cbn [result_bind].
  - destruct (builtins.getitem obj key); cbn [fs open_files opened stdout];
      by rewrite close_open_read.
  - cbn [fs open_files opened stdout]. by rewrite close_open_read.
Qed.

Lemma status_run (w : World) :
  status env w = exit_status (version_string env (fs w !! PACKAGE_JSON env)).
Proof.
  unfold status. rewrite get_version_run. cbn.
  by destruct (version_string _ _).
Qed.

Lemma output_run (w : World) :
  output env w = match version_string env (fs w !! PACKAGE_JSON env) with
             | Ok v => builtins.str_ v ++ [10]
             | Raise _ => []
             end.
Proof.
  unfold output, written. rewrite get_version_run. cbn.
  destruct (version_string _ _).
  - by rewrite drop_app_length.
  - by rewrite drop_all.
Qed.

(** The file object that [with] hands to its body is closed when the
    statement is left, whatever the body does with it and whether it
    returns or raises. *)
Lemma with_closes {A} (file : str) (body : nat -> IO A) (w : World) :
  open_files (io.with_ (io.open file) body w).2
    !! fresh (dom (open_files w)) = None.
Proof.
  unfold io.with_, io.open. cbn [fs open_files opened stdout].
  assert (Hfresh : open_files w !! fresh (dom (open_files w)) = None).
  { apply not_elem_of_dom, is_fresh. }
  destruct (fs w !! file) as [[|[] text]|]; try done.
  destruct (body _ _) as [r w2]. unfold io.close. cbn [snd open_files].
  apply lookup_delete_eq.
Qed.

End Resolver.

(** ** [dict] and the members of an object *)

Section DictLemmas.

Lemma get_setitem_eq (key : str) (v : value) (d : list (str * value)) :
  dict.get key (dict.setitem key v d) = Some v.
Proof.
  induction d as [|[k w] d IH]; simpl.
  - by rewrite bool_decide_true.
  - destruct (decide (k = key)) as [->|Hne].
    + rewrite bool_decide_true by done. simpl. by rewrite bool_decide_true.
    + rewrite bool_decide_false by done. simpl. by rewrite bool_decide_false.
Qed.

Lemma get_setitem_ne (key k : str) (v : value) (d : list (str * value)) :
  k ≠ key -> dict.get key (dict.setitem k v d) = dict.get key d.
Proof.
  intros Hne. induction d as [|[k' w] d IH]; simpl.
  - by rewrite bool_decide_false.
  - destruct (decide (k' = k)) as [->|Hne'].
    + rewrite bool_decide_true by done. simpl. by rewrite bool_decide_false.
    + rewrite bool_decide_false by done. simpl. by rewrite IH.
Qed.

Lemma get_setitems_other (key : str) (pairs d : list (str * value)) :
  key ∉ pairs.*1 ->
  dict.get key (fold_left (fun d kv => dict.setitem kv.1 kv.2 d) pairs d)
  = dict.get key d.
Proof.
  revert d. induction pairs as [|[k v] pairs IH]; intros d Hkey; [done|].
  rewrite fmap_cons in Hkey. apply not_elem_of_cons in Hkey as [Hne Hkey].
  simpl in *. rewrite IH by done. by apply get_setitem_ne.
Qed.

(** In [dict(pairs)] a key has the value of its last pair. *)
Lemma get_of_pairs (key : str) (v : value) (before after : list (str * value)) :
  key ∉ after.*1 ->
  dict.get key (dict.of_pairs (before ++ (key, v) :: after)) = Some v.
Proof.
  intros Hkey. unfold dict.of_pairs. rewrite fold_left_app. simpl.
  rewrite get_setitems_other by done. apply get_setitem_eq.
Qed.

(** The [dict] that [json.loads] returns for an object is [dict(pairs)]
    for the members [pairs] of the object. *)
Lemma loads_object_pairs (text : str) (pairs : list (str * value)) :
  json.object_pairs json._CONSTANTS text = Ok pairs ->
  json.loads text = Ok (PyDict (dict.of_pairs pairs)).
Proof.
  unfold json.object_pairs, json.loads, json.decode. intros Hp.
  destruct (json.skip_whitespace text) as [|brace s1] eqn:Hskip; [done|].
  destruct (N.eqb_spec brace 123) as [->|Hne]; [|done].
  replace (Str.startswith [65279] text) with false.
  2:{ symmetry. unfold Str.startswith. apply bool_decide_false.
      destruct text as [|c text]; [done|]. simpl. rewrite take_0.
      intros [= ->]. by simpl in Hskip. }
  cbn [json.scan_once]. simpl (_ =? _).
  destruct (json.skip_whitespace s1) as [|c s2].
  - destruct (json.JSONObject _ _ _ _) as [[prs rest]|e]; [|done].
    simpl in *. by destruct (json.skip_whitespace rest); simplify_eq.
  - destruct (c =? 125).
    + simpl in *. by destruct (json.skip_whitespace s2); simplify_eq.
    + destruct (json.JSONObject _ _ _ _) as [[prs rest]|e]; [|done].
      simpl in *. by destruct (json.skip_whitespace rest); simplify_eq.
Qed.

Lemma scanstring_plain (s rest : str) :
  plain s -> json.scanstring (s ++ 34 :: rest) = Ok (s, rest).
Proof.
  induction 1 as [|c s (Hq & Hb & Hc) _ IH]; [done|].
  rewrite <- app_comm_cons. cbn [json.scanstring].
  rewrite (proj2 (N.eqb_neq c 34)), (proj2 (N.eqb_neq c 92)) by done.
  rewrite (proj2 (N.leb_gt c 31)) by done.
  exact (f_equal (json.emit c) IH).
Qed.

(** One round of the loop of [JSONObject] on a member written out. *)
Lemma JSONObject_member pc (fuel : nat) (k v tail : str)
    (pairs : list (str * value)) :
  plain k -> plain v ->
  json.JSONObject pc (S (S fuel)) (member_text (k, v) ++ tail) pairs
  = match json.skip_whitespace tail with
    | c :: s5 =>
        if c =? 125 then Ok (pairs ++ [member_pair (k, v)], s5)
        else if c =? 44 then
          json.JSONObject pc (S fuel) (json.skip_whitespace s5)
            (pairs ++ [member_pair (k, v)])
        else Raise (JSONDecodeError "Expecting ',' delimiter")
    | [] => Raise (JSONDecodeError "Expecting ',' delimiter")
    end.
Proof.
  intros Hk Hv. unfold member_text, quoted. cbn [fst snd].
  change (([34] ++ k ++ [34]) ++ u ": " ++ ([34] ++ v ++ [34]) ++ tail)
    with (34 :: (k ++ [34]) ++ 58 :: 32 :: 34 :: (v ++ [34]) ++ tail).
  rewrite <- !app_assoc. cbn [app].
  match goal with |- _ = ?rhs => set (R := rhs) end.
  remember (S fuel) as fuel' eqn:Hfuel.
  cbn [json.JSONObject]. change (34 =? 34) with true. cbn iota.
  rewrite (scanstring_plain k _ Hk). cbn [mbind result_bind]. cbn beta iota.
  change (json.skip_whitespace (u ": " ++ ?s)) with (58 :: 32 :: s).
  change (58 =? 58) with true. cbn iota.
  change (json.skip_whitespace (32 :: 34 :: ?s)) with (34 :: s).
  assert (Hval : json.scan_once pc fuel' (34 :: v ++ 34 :: tail)
                 = Ok (PyStr v, tail)).
  { rewrite Hfuel. cbn [json.scan_once]. change (34 =? 34) with true. cbn iota.
    by rewrite (scanstring_plain v _ Hv). }
  rewrite Hval. cbn [mbind result_bind]. cbn beta iota. by subst R fuel'.
Qed.

Lemma skip_whitespace_member (kv : str * str) (tail : str) :
  json.skip_whitespace (member_text kv ++ tail) = member_text kv ++ tail.
Proof. done. Qed.

Lemma join_member_texts (m : str * str) (ms : list (str * str)) (tail : str) :
  ∃ t, Str.join (u ", ") (map member_text (m :: ms)) ++ tail
       = member_text m ++ t
       ∧ t = match ms with
             | [] => tail
             | m' :: ms' =>
                 u ", " ++ Str.join (u ", ") (map member_text (m' :: ms')) ++ tail
             end.
Proof.
  destruct ms as [|m' ms']; eexists; (split; [|done]); [done|].
  change (Str.join (u ", ") (map member_text (m :: m' :: ms')))
    with (member_text m ++ u ", "
          ++ Str.join (u ", ") (map member_text (m' :: ms'))).
  by rewrite <- !app_assoc.
Qed.

(** The loop of [JSONObject] on the members of a written object. *)
Lemma JSONObject_members pc (ms : list (str * str)) :
  ∀ (m : str * str) (fuel : nat) (pairs : list (str * value)) (rest : str),
    Forall (fun kv => plain kv.1 ∧ plain kv.2) (m :: ms) ->
    (length ms + 2 <= fuel)%nat ->
    json.JSONObject pc fuel
      (Str.join (u ", ") (map member_text (m :: ms)) ++ 125 :: rest) pairs
    = Ok (pairs ++ map member_pair (m :: ms), rest).
Proof.
  induction ms as [|m' ms IH]; intros [k v] fuel pairs rest Hall Hfuel;
    inversion Hall as [|? ? [Hk Hv] Hms]; subst;
    destruct fuel as [|[|fuel]]; try (simpl in Hfuel; lia).
  - destruct (join_member_texts (k, v) [] (125 :: rest)) as (t & -> & ->).
    by rewrite JSONObject_member.
  - destruct (join_member_texts (k, v) (m' :: ms) (125 :: rest)) as (t & -> & ->).
    rewrite JSONObject_member by done.
    change (json.skip_whitespace (u ", " ++ ?s)) with (44 :: 32 :: s).
    change (44 =? 125) with false. change (44 =? 44) with true. cbn iota.
    change (json.skip_whitespace (32 :: ?s)) with (json.skip_whitespace s).
    destruct (join_member_texts m' ms (125 :: rest)) as (t & Ht & _).
    rewrite Ht, skip_whitespace_member, <- Ht.
    rewrite IH by (done || simpl in *; lia).
    by rewrite <- app_assoc.
Qed.

Lemma join_length (sep : str) (parts : list str) :
  Forall (fun part => part ≠ []) parts ->
  (length parts <= length (Str.join sep parts))%nat.
Proof.
  induction parts as [|part [|part' parts] IH]; intros Hall; [done| |].
  - inversion Hall; subst. destruct part; [done|simpl; lia].
  - inversion Hall as [|? ? Hpart Hparts]; subst.
    change (Str.join sep (part :: part' :: parts))
      with (part ++ sep ++ Str.join sep (part' :: parts)).
    rewrite !length_app. specialize (IH Hparts).
    destruct part; [done|]. simpl in *. lia.
Qed.

(** The decoder finds in a written object the members that were written,
    in their order and with their repetitions. *)
Lemma object_pairs_object_text pc (members : list (str * str)) :
  Forall (fun kv => plain kv.1 ∧ plain kv.2) members ->
  json.object_pairs pc (object_text members) = Ok (map member_pair members).
Proof.
  intros Hall. destruct members as [|m ms]; [done|].
  unfold json.object_pairs, object_text.
  change (json.skip_whitespace ([123] ++ ?s)) with (123 :: s).
  change (123 =? 123) with true. cbn iota.
  destruct (join_member_texts m ms [125]) as (t & Ht & _).
  rewrite Ht, skip_whitespace_member.
  assert (Hquote : ∃ s2, member_text m ++ t = 34 :: s2) by (by eexists).
  destruct Hquote as [s2 Hs2]. rewrite Hs2.
  change (34 =? 125) with false. cbn iota.
  rewrite <- Hs2, <- Ht. rewrite JSONObject_members; [done|done|].
  rewrite length_app. cbn [length].
  pose proof (join_length (u ", ") (map member_text (m :: ms))) as Hlen.
  rewrite length_map in Hlen. rewrite length_app.
  assert (Forall (fun part : str => part ≠ []) (map member_text (m :: ms))).
  { apply Forall_fmap. by apply Forall_true. }
  specialize (Hlen ltac:(done)). simpl in *. lia.
Qed.

End DictLemmas.

(** ** The claims *)

Section Claims.
Context `{Platform} (env : Env).

Abbreviation MANIFEST := (PACKAGE_JSON env).
Abbreviation VERSION := (u "version").



(** C3: when the manifest path does not resolve to a readable file, [open]
    raises an [OSError] ([FileNotFoundError] when nothing is there,
    [IsADirectoryError] for a directory, [PermissionError] for a file that
    may not be read); the exit status is 1 and nothing is written to
    standard output. *)
Theorem missing_manifest_fails (w : World) :
  (∀ text, fs w !! MANIFEST ≠ Some (RegularFile true text)) ->
  (∃ e, (get_version env w).1 = Raise e ∧ is_OSError e
        ∧ (fs w !! MANIFEST = None -> e = FileNotFoundError MANIFEST))
  ∧ status env w = 1%Z
  ∧ output env w = []
  ∧ stdout (get_version env w).2 = stdout w.
Proof.
  intros Hno. rewrite status_run, output_run, get_version_run.
  destruct (fs w !! MANIFEST) as [[|[] text]|] eqn:Hfile;
    cbn [version_string fst snd stdout exit_status].
  - split; [|done]. by eexists.
  - by destruct (Hno text).
  - split; [|done]. by eexists.
  - split; [|done]. by eexists.
Qed.


(** C5: when the manifest reads as an object without the key [version],
    the invocation fails with [KeyError], the exit status is 1 and nothing
    is written to standard output. *)
Theorem missing_version_key_fails
    (w : World) (text : str) (d : list (str * value)) :
  fs w !! MANIFEST = Some (RegularFile true text) ->
  json.loads text = Ok (PyDict d) ->
  dict.get VERSION d = None ->
  (get_version env w).1 = Raise (KeyError VERSION)
  ∧ status env w = 1%Z
  ∧ output env w = []
  ∧ stdout (get_version env w).2 = stdout w.
Proof.
  intros Hfile Hloads Hget.
  rewrite status_run, output_run, get_version_run, Hfile.
  cbn [version_string]. rewrite Hloads. cbn [mbind result_bind builtins.getitem].
  by rewrite Hget.
Qed.

(** C6: the output and the exit status of an invocation depend on nothing
    in the world but what the manifest path resolves to, and an invocation
    leaves the file system as it found it: two invocations against the
    same manifest, in whatever worlds, and an invocation and the one that
    follows it, write the same text and end with the same status. *)
Theorem resolver_is_deterministic (w1 w2 : World) :
  fs w1 !! MANIFEST = fs w2 !! MANIFEST ->
  (output env w1 = output env w2 ∧ status env w1 = status env w2)
  ∧ fs (get_version env w1).2 = fs w1
  ∧ output env (get_version env w1).2 = output env w1
  ∧ status env (get_version env w1).2 = status env w1.
Proof.
  intros Hsame. rewrite !status_run, !output_run, get_version_run.
  cbn [snd fs]. by rewrite Hsame.
Qed.

(** C7: the file object of the manifest does not outlive the [with] block:
    after the invocation the open files are the ones that were open before
    it, whether the block returned a value, the decoder raised, or the
    subscription raised. *)
Theorem manifest_file_is_closed (w : World) :
  open_files (get_version env w).2 = open_files w.
Proof. by rewrite get_version_run. Qed.


(** C9: when the manifest reads as a value that is not an object, the
    subscription raises [TypeError], which is none of [OSError],
    [JSONDecodeError] and [KeyError]; the exit status is 1 and nothing is
    written to standard output. *)
Theorem non_object_manifest_fails (w : World) (text : str) (v : value) :
  fs w !! MANIFEST = Some (RegularFile true text) ->
  json.loads text = Ok v ->
  (∀ d, v ≠ PyDict d) ->
  (∃ e, (get_version env w).1 = Raise e
        ∧ is_TypeError e
        ∧ ¬ is_OSError e ∧ ¬ is_JSONDecodeError e ∧ ¬ is_KeyError e)
  ∧ status env w = 1%Z
  ∧ output env w = []
  ∧ stdout (get_version env w).2 = stdout w.
Proof.
  intros Hfile Hloads Hobj.
  rewrite status_run, output_run, get_version_run, Hfile.
  cbn [version_string]. rewrite Hloads. cbn [mbind result_bind].
  destruct v; try (by destruct (Hobj items));
    cbn [builtins.getitem fst snd stdout exit_status];
    (split; [|done]); eexists; (split; [done|]);
    (split_and!; [by eexists| by intros [] | by intros [? [=]] | by intros [? [=]]]).
Qed.

(** A manifest written out as an object of strings, with the key
    [version] any number of times: the string of its last occurrence is
    printed. *)
Lemma written_manifest_last_version
    (w : World) (before after : list (str * str)) (s : str) :
  Forall (fun kv => plain kv.1 ∧ plain kv.2) (before ++ (VERSION, s) :: after) ->
  VERSION ∉ after.*1 ->
  fs w !! MANIFEST
  = Some (RegularFile true (object_text (before ++ (VERSION, s) :: after))) ->
  status env w = 0%Z ∧ output env w = s ++ [10].
Proof.
  intros Hplain Hlast Hfile.
  rewrite status_run, output_run, Hfile. cbn [version_string].
  rewrite (loads_object_pairs _ _
             (object_pairs_object_text json._CONSTANTS _ Hplain)).
  cbn [mbind result_bind builtins.getitem].
  rewrite map_app. cbn [map].
  change (member_pair (VERSION, s)) with (VERSION, PyStr s).
  rewrite get_of_pairs; [done|].
  rewrite <- list_fmap_compose.
  by replace (fst ∘ member_pair) with (@fst str str) by done.
Qed.


End Claims.

(** ** More about the decoder *)

Section MoreDecoder.

Lemma setitem_fresh (key : str) (v : value) (d : list (str * value)) :
  key ∉ d.*1 -> dict.setitem key v d = d ++ [(key, v)].
Proof.
  induction d as [|[k w] d IH]; intros Hkey; [done|].
  rewrite fmap_cons in Hkey. apply not_elem_of_cons in Hkey as [Hne Hkey].
  simpl in *. rewrite bool_decide_false by done. by rewrite IH.
Qed.

Lemma of_pairs_distinct (pairs acc : list (str * value)) :
  NoDup (acc ++ pairs).*1 ->
  fold_left (fun d kv => dict.setitem kv.1 kv.2 d) pairs acc = acc ++ pairs.
Proof.
  revert acc. induction pairs as [|[k v] pairs IH]; intros acc Hnodup.
  - by rewrite app_nil_r.
  - simpl. rewrite setitem_fresh.
    + rewrite IH; rewrite <- app_assoc; done.
    + rewrite fmap_app, fmap_cons in Hnodup.
      apply NoDup_app in Hnodup as (_ & Hdisj & _).
      intros Hin. apply (Hdisj k Hin). constructor.
Qed.

(** X6: the text of an object of plain strings with distinct keys decodes
    to those members, in the order they were written. *)
Theorem written_object_round_trip (members : list (str * str)) :
  Forall (fun kv => plain kv.1 ∧ plain kv.2) members ->
  NoDup members.*1 ->
  json.loads (object_text members) = Ok (PyDict (map member_pair members)).
Proof.
  intros Hplain Hnodup.
  rewrite (loads_object_pairs _ _
             (object_pairs_object_text json._CONSTANTS _ Hplain)).
  unfold dict.of_pairs. rewrite of_pairs_distinct; [done|].
  rewrite app_nil_l, <- list_fmap_compose.
  by replace (fst ∘ member_pair) with (@fst str str) by done.
Qed.

Lemma every_list (Q : value -> Prop) (items : list value) :
  every Q (PyList items) ↔ Q (PyList items) ∧ Forall (every Q) items.
Proof.
  cbn [every]. apply and_iff_compat_l.
  induction items as [|x items IH]; [by split|].
  rewrite Forall_cons. by apply and_iff_compat_l.
Qed.

Lemma every_dict (Q : value -> Prop) (items : list (str * value)) :
  every Q (PyDict items)
  ↔ Q (PyDict items) ∧ Forall (fun kv => every Q kv.2) items.
Proof.
  cbn [every]. apply and_iff_compat_l.
  induction items as [|[k x] items IH]; [by split|].
  rewrite Forall_cons. by apply and_iff_compat_l.
Qed.

Lemma every_here (Q : value -> Prop) (v : value) : every Q v -> Q v.
Proof. destruct v; by intros [? _]. Qed.

Lemma setitem_values (R : value -> Prop) (key : str) (v : value)
    (d : list (str * value)) :
  R v -> Forall (fun kv => R kv.2) d ->
  Forall (fun kv => R kv.2) (dict.setitem key v d).
Proof.
  intros Hv. induction 1 as [|[k w] d Hw Hd IH]; simpl.
  - by repeat constructor.
  - case_bool_decide; constructor; done.
Qed.

(** The values of [dict(pairs)] are values of [pairs]. *)
Lemma of_pairs_values (R : value -> Prop) (pairs : list (str * value)) :
  Forall (fun kv => R kv.2) pairs ->
  Forall (fun kv => R kv.2) (dict.of_pairs pairs).
Proof.
  unfold dict.of_pairs. generalize (@nil (str * value)) (Forall_nil_2 (fun kv : str * value => R kv.2)).
  induction pairs as [|[k v] pairs IH]; intros acc Hacc Hpairs; [done|].
  inversion Hpairs; subst. simpl. apply IH; [|done].
  by apply setitem_values.
Qed.

Lemma setitem_keys (key : str) (v : value) (d : list (str * value)) :
  NoDup d.*1 -> NoDup (dict.setitem key v d).*1.
Proof.
  intros Hd. destruct (decide (key ∈ d.*1)) as [Hin|Hnot].
  - replace (dict.setitem key v d).*1 with d.*1; [done|].
    clear Hd. induction d as [|[k w] d IH]; [by apply elem_of_nil in Hin|].
    simpl. case_bool_decide as Hk; [done|]. simpl. f_equal. apply IH.
    rewrite fmap_cons in Hin. apply elem_of_cons in Hin as [->|Hin]; done.
  - rewrite setitem_fresh by done. rewrite fmap_app.
    apply NoDup_app. split_and!; [done| |by apply NoDup_singleton].
    intros x Hx [->|[]%elem_of_nil]%elem_of_cons. done.
Qed.

(** [dict(pairs)] has no key twice. *)
Lemma of_pairs_keys (pairs : list (str * value)) :
  NoDup (dict.of_pairs pairs).*1.
Proof.
  unfold dict.of_pairs.
  assert (Hacc : NoDup (@nil (str * value)).*1) by constructor.
  revert Hacc. generalize (@nil (str * value)).
  induction pairs as [|[k v] pairs IH]; intros acc Hacc; [done|].
  simpl. apply IH. by apply setitem_keys.
Qed.

Lemma digits_number_chars (s : str) : Forall number_char (json.digits s).1.
Proof.
  induction s as [|c s IH]; [constructor|]. simpl.
  destruct (json.is_digit c) eqn:Hc; [|constructor].
  destruct (json.digits s) as [ds rest]. simpl in *. constructor; [|done].
  left. unfold json.is_digit in Hc.
  apply andb_true_iff in Hc as [?%N.leb_le ?%N.leb_le]. done.
Qed.

Lemma is_digit_number_char (c : char) :
  json.is_digit c = true -> number_char c.
Proof.
  unfold json.is_digit. intros [?%N.leb_le ?%N.leb_le]%andb_true_iff. by left.
Qed.

(** What [NUMBER_RE] matches is made of number characters. *)
Lemma match_number_chars (s integer frac exp rest : str) :
  json.match_number s = Some (integer, frac, exp, rest) ->
  Forall number_char (integer ++ frac ++ exp).
Proof.
  unfold json.match_number. intros Hm.
  destruct (json.match_integer s) as [[i s1]|] eqn:Hi; [|done].
  simpl in Hm.
  destruct (json.match_frac s1) as [fr s2] eqn:Hfr.
  destruct (json.match_exp s2) as [ex s3] eqn:Hex. simplify_eq.
  rewrite !Forall_app. split_and!.
  - unfold json.match_integer in Hi.
    assert (Hsign : ∀ c, (c =? 45) = true -> number_char c).
    { intros c ->%N.eqb_eq. right. by left. }
    assert (Hzero : ∀ c, (c =? 48) = true -> number_char c).
    { intros c ->%N.eqb_eq. by left. }
    pose proof digits_number_chars as Hds.
    destruct s as [|c s]; [done|].
    destruct (c =? 45) eqn:Hc.
    + destruct s as [|c1 s]; [done|].
      destruct (c1 =? 48) eqn:Hc1.
      { simplify_eq. simpl. auto using Forall_cons_2, Forall_nil_2. }
      destruct (json.is_digit c1) eqn:Hd1; [|done].
      specialize (Hds s). destruct (json.digits s). simplify_eq. simpl in *.
      auto using Forall_cons_2, is_digit_number_char.
    + destruct (c =? 48) eqn:Hc0.
      { simplify_eq. simpl. auto using Forall_cons_2, Forall_nil_2. }
      destruct (json.is_digit c) eqn:Hd; [|done].
      specialize (Hds s). destruct (json.digits s). simplify_eq. simpl in *.
      auto using Forall_cons_2, is_digit_number_char.
  - unfold json.match_frac in Hfr. destruct s1 as [|c s1]; [by simplify_eq|].
    destruct (c =? 46) eqn:Hc; [|by simplify_eq].
    pose proof (digits_number_chars s1) as Hds.
    destruct (json.digits s1) as [[|d ds] r]; simplify_eq; [done|].
    constructor; [|done]. apply N.eqb_eq in Hc as ->. right. right. right. by left.
  - unfold json.match_exp in Hex. destruct s2 as [|c s2]; [by simplify_eq|].
    destruct ((c =? 101) || (c =? 69)) eqn:Hc; [|by simplify_eq].
    assert (He : number_char c).
    { apply orb_true_iff in Hc as [->%N.eqb_eq | ->%N.eqb_eq];
        unfold number_char; auto 10. }
    destruct s2 as [|c1 s2]; cbn beta iota zeta in Hex.
    + simpl in Hex. by simplify_eq.
    + destruct ((c1 =? 45) || (c1 =? 43)) eqn:Hc1; cbn beta iota zeta in Hex.
      * pose proof (digits_number_chars s2) as Hds.
        destruct (json.digits s2) as [[|d ds] r]; simplify_eq; [done|].
        simpl in *. apply Forall_cons_2; [done|]. apply Forall_cons_2; [|done].
        apply orb_true_iff in Hc1 as [->%N.eqb_eq | ->%N.eqb_eq];
          unfold number_char; auto 10.
      * pose proof (digits_number_chars (c1 :: s2)) as Hds.
        destruct (json.digits (c1 :: s2)) as [[|d ds] r]; simplify_eq; [done|].
        simpl in *. by apply Forall_cons_2.
Qed.

Section Every.
Import json.

(** A [parse_constant] hook, and a property [Q] that holds of every value
    the scanner can build on its own. *)
Variable parse_constant : str -> result value.
Variable Q : value -> Prop.
Hypothesis Q_None : Q PyNone.
Hypothesis Q_Bool : ∀ b, Q (PyBool b).
Hypothesis Q_Int : ∀ z, Q (PyInt z).
Hypothesis Q_Str : ∀ s, Q (PyStr s).
Hypothesis Q_Float :
  ∀ lexeme, Forall number_char lexeme -> Q (PyFloat (FLit lexeme)).
Hypothesis Q_List : ∀ items, Q (PyList items).
Hypothesis Q_Dict : ∀ pairs, Q (PyDict (dict.of_pairs pairs)).
Hypothesis Q_constant : ∀ name v, parse_constant name = Ok v -> every Q v.

Lemma scan_scalar_every (nextchar : char) (s : str) (v : value) (rest : str) :
  scan_scalar parse_constant nextchar s = Ok (v, rest) -> every Q v.
Proof.
  unfold scan_scalar.
  repeat (match goal with
          | |- (if ?b then _ else _) = _ -> _ =>
              destruct b; [intros [= <- _]; by split|]
          end).
  destruct (match_number s) as [[[[i fr] ex] r]|] eqn:Hm.
  - apply match_number_chars in Hm.
    case_match; intros [= <- _]; (split; [|done]); [by apply Q_Float|done].
  - repeat (match goal with
            | |- (if ?b then _ else _) = _ -> _ =>
                destruct b;
                [intros (v' & Hv & [= <- _])%bind_Ok_inv;
                 by apply (Q_constant _ _ Hv)|]
            end).
    done.
Qed.

(** Every value the scanner returns has [Q] all through. *)
Lemma scanner_every (fuel : nat) :
  ∀ s : str,
    (∀ v rest, scan_once parse_constant fuel s = Ok (v, rest) -> every Q v) ∧
    (∀ pairs prs rest,
       Forall (fun kv => every Q kv.2) pairs ->
       JSONObject parse_constant fuel s pairs = Ok (prs, rest) ->
       Forall (fun kv => every Q kv.2) prs) ∧
    (∀ values v rest,
       Forall (every Q) values ->
       JSONArray parse_constant fuel s values = Ok (v, rest) -> every Q v).
Proof.
  induction fuel as [|fuel IH]; intros s; [by split_and!|].
  split_and!.
  - intros v rest. destruct s as [|nextchar s1]; [done|]. cbn [scan_once].
    destruct (nextchar =? 34).
    { intros ([x r] & _ & [= <- _])%bind_Ok_inv. by split. }
    destruct (nextchar =? 123).
    { intros ([prs r] & Hobj & [= <- _])%bind_Ok_inv.
      apply every_dict. split; [done|]. apply of_pairs_values.
      destruct (skip_whitespace s1) as [|c s2].
      - by apply IH in Hobj.
      - destruct (c =? 125); [by simplify_eq|]. by apply IH in Hobj. }
    destruct (nextchar =? 91).
    { destruct (skip_whitespace s1) as [|c s2]; [by apply IH|].
      destruct (c =? 93); [|by apply IH].
      intros [= <- _]. by split. }
    apply scan_scalar_every.
  - intros pairs prs rest Hpairs.
    destruct s as [|quote s1]; [done|]. cbn [JSONObject].
    destruct (quote =? 34); [|done].
    intros ([key s2] & _ & Hr)%bind_Ok_inv.
    destruct (skip_whitespace s2) as [|colon s3]; [done|].
    destruct (colon =? 58); [|done].
    apply bind_Ok_inv in Hr as ([val s4] & Hval & Hr).
    apply IH in Hval. cbn beta iota zeta in Hr.
    assert (Hmore : Forall (fun kv => every Q kv.2) (pairs ++ [(key, val)])).
    { apply Forall_app. split; [done|]. by repeat constructor. }
    destruct (skip_whitespace s4) as [|c s5]; [done|].
    destruct (c =? 125); [by simplify_eq|].
    destruct (c =? 44); [|done]. by apply IH in Hr.
  - intros values v rest Hvalues. cbn [JSONArray].
    intros ([val s1] & Hval & Hr)%bind_Ok_inv.
    apply IH in Hval. cbn beta iota zeta in Hr.
    assert (Hmore : Forall (every Q) (values ++ [val])).
    { apply Forall_app. split; [done|]. by repeat constructor. }
    destruct (skip_whitespace s1) as [|c s2]; [done|].
    destruct (c =? 93).
    { simplify_eq. by apply every_list. }
    destruct (c =? 44); [|done]. by apply IH in Hr.
Qed.

Lemma decode_every (s : str) (v : value) :
  decode parse_constant s = Ok v -> every Q v.
Proof.
  unfold decode. intros ([obj rest] & Hscan & Hr)%bind_Ok_inv.
  apply scanner_every in Hscan. by destruct (skip_whitespace rest); simplify_eq.
Qed.

End Every.

(** The values of the default [parse_constant] are three floats. *)
Lemma CONSTANTS_every (Q : value -> Prop) (name : str) (v : value) :
  Q (PyFloat FNaN) -> Q (PyFloat FInf) -> Q (PyFloat FNegInf) ->
  json._CONSTANTS name = Ok v -> every Q v.
Proof.
  intros Hnan Hinf Hneg. unfold json._CONSTANTS.
  repeat case_match; intros [= <-]; by split.
Qed.

(** X7: no [dict] that [json.loads] returns has a key twice, at whatever
    depth it lies in the value. *)
Theorem loads_distinct_keys (text : str) (v : value) :
  json.loads text = Ok v -> every distinct_keys v.
Proof.
  unfold json.loads. case_match; [done|].
  apply decode_every; try done.
  - intros pairs. apply of_pairs_keys.
  - intros name v'. by apply CONSTANTS_every.
Qed.

End MoreDecoder.

(** ** Integers, printed and read back *)

Section Integers.
Import json builtins.










End Integers.

(** ** Whitespace around a text *)

Section Padding.
Import json.

Lemma skip_whitespace_app_cons (s t : str) (c : char) (r : str) :
  skip_whitespace s = c :: r -> skip_whitespace (s ++ t) = c :: r ++ t.
Proof.
  induction s as [|x s IH]; [done|]. simpl.
  destruct (is_whitespace x); [done|]. by intros [= -> ->].
Qed.

Lemma skip_whitespace_all (s : str) : whitespace s -> skip_whitespace s = [].
Proof. induction 1 as [|c s Hc _ IH]; [done|]. simpl. by rewrite Hc. Qed.

Lemma skip_whitespace_app_nil (s t : str) :
  skip_whitespace s = [] -> whitespace t -> skip_whitespace (s ++ t) = [].
Proof.
  intros Hs Ht. induction s as [|x s IH]; [by apply skip_whitespace_all|].
  simpl in *. destruct (is_whitespace x); [by apply IH|done].
Qed.

Lemma skip_whitespace_prefix (s t : str) :
  whitespace s -> skip_whitespace (s ++ t) = skip_whitespace t.
Proof. induction 1 as [|c s Hc _ IH]; [done|]. simpl. by rewrite Hc. Qed.

Lemma emit_Ok_inv (c : char) (r : result (str * str)) (x rest : str) :
  emit c r = Ok (x, rest) -> ∃ x', r = Ok (x', rest) ∧ x = c :: x'.
Proof.
  destruct r as [[x' rest']|e]; [|done]. intros [= <- <-]. by exists x'.
Qed.

Lemma bind_Ok {A B} (r : result A) (k : A -> result B) (a : A) (b : B) :
  r = Ok a -> k a = Ok b -> r ≫= k = Ok b.
Proof. by intros ->. Qed.

(** [scanstring] does not look past the closing quote. *)
Lemma scanstring_app (t s x rest : str) :
  scanstring s = Ok (x, rest) -> scanstring (s ++ t) = Ok (x, rest ++ t).
Proof.
  remember (length s) as n eqn:Hn. revert s x rest Hn.
  induction n as [n IH] using lt_wf_ind. intros s x rest -> Hs.
  assert (Hrec : ∀ c s',
            (length s' < length s)%nat ->
            emit c (scanstring s') = Ok (x, rest) ->
            emit c (scanstring (s' ++ t)) = Ok (x, rest ++ t)).
  { intros c s' Hlt (x' & Hs' & ->)%emit_Ok_inv.
    by rewrite (IH _ Hlt s' x' rest eq_refl Hs'). }
  clear IH.
  destruct s as [|c s1]; [done|].
  cbn [app scanstring] in *.
  destruct (c =? 34); [by simplify_eq|].
  destruct (c =? 92).
  2:{ destruct (c <=? 31); [done|]. apply Hrec; [simpl; lia|done]. }
  destruct s1 as [|esc s2]; [done|]. cbn [app].
  destruct (esc =? 117).
  2:{ destruct (BACKSLASH esc); [|done]. apply Hrec; [simpl; lia|done]. }
  destruct s2 as [|a [|b [|c' [|d [|x0 s3]]]]]; try done. cbn [app].
  destruct (decode_uXXXX a b c' d) as [uni|]; [|done].
  destruct (is_high_surrogate uni).
  2:{ apply (Hrec uni (x0 :: s3)); [simpl; lia|done]. }
  destruct s3 as [|b2 [|e [|f [|g [|h [|y s4]]]]]].
  7:{ cbn [app].
      destruct ((x0 =? 92) && (b2 =? 117)).
      2:{ apply (Hrec uni (x0 :: b2 :: e :: f :: g :: h :: y :: s4));
            [simpl; lia|done]. }
      destruct (decode_uXXXX e f g h) as [uni2|]; [|done].
      destruct (is_low_surrogate uni2).
      - apply (Hrec _ (y :: s4)); [simpl; lia|done].
      - apply (Hrec uni (x0 :: b2 :: e :: f :: g :: h :: y :: s4));
          [simpl; lia|done]. }
  all: destruct t as [|t1 [|t2 [|t3 [|t4 [|t5 [|t6 t]]]]]]; cbn [app];
    try (match type of Hs with
         | emit _ (scanstring ?s') = _ => by apply (Hrec uni s'); [simpl; lia|]
         end);
    match goal with
    | |- context [(?p =? 92) && (?q =? 117)] =>
        destruct ((p =? 92) && (q =? 117)) eqn:Hpair
    end;
    try (match type of Hs with
         | emit _ (scanstring ?s') = _ => by apply (Hrec uni s'); [simpl; lia|]
         end);
    exfalso; apply andb_prop in Hpair as [->%N.eqb_eq Hq];
    try (apply N.eqb_eq in Hq as ->); by simpl in Hs.
Qed.

Section Tail.
(** The text that follows: whitespace. *)
Variable t : str.
Hypothesis whitespace_t : whitespace t.

Lemma whitespace_tail :
  t = [] ∨ ∃ c t', t = c :: t' ∧ is_whitespace c = true.
Proof.
  pose proof whitespace_t as Hws.
  inversion Hws as [Ht|c t' Hc Ht' Ht]; [by left|right; by exists c, t'].
Qed.

Lemma whitespace_is_not (c : char) :
  is_whitespace c = true ->
  is_digit c = false ∧ (c =? 45) = false ∧ (c =? 43) = false
  ∧ (c =? 46) = false ∧ (c =? 101) = false ∧ (c =? 69) = false
  ∧ (c =? 48) = false.
Proof.
  unfold is_whitespace, is_digit. intros Hc.
  repeat (apply orb_prop in Hc as [Hc|Hc]); apply N.eqb_eq in Hc as ->; done.
Qed.

Lemma digits_app (s : str) :
  digits (s ++ t) = ((digits s).1, (digits s).2 ++ t).
Proof.
  induction s as [|c s IH].
  - simpl. destruct whitespace_tail as [Ht|(c & t' & Ht & Hc)]; rewrite Ht; [done|].
    simpl. by destruct (whitespace_is_not c Hc) as (-> & _).
  - simpl. destruct (is_digit c); [|done].
    rewrite IH. by destruct (digits s).
Qed.

Lemma match_integer_app (s : str) :
  match_integer (s ++ t)
  = (fun '(a, rest) => (a, rest ++ t)) <$> match_integer s.
Proof.
  unfold match_integer. destruct s as [|c s]; cbn [app].
  { destruct whitespace_tail as [Ht|(c & t' & Ht & Hc)]; rewrite Ht; [done|].
    destruct (whitespace_is_not c Hc) as (Hd & H45 & _ & _ & _ & _ & H48).
    rewrite H45, H48. cbn iota. by rewrite Hd. }
  destruct (c =? 45).
  - destruct s as [|c1 s]; cbn [app].
    { destruct whitespace_tail as [Ht|(c1 & t' & Ht & Hc)]; rewrite Ht; [done|].
      destruct (whitespace_is_not c1 Hc) as (Hd & _ & _ & _ & _ & _ & H48).
      rewrite H48. by rewrite Hd. }
    destruct (c1 =? 48); [done|]. destruct (is_digit c1); [|done].
    rewrite digits_app. by destruct (digits s).
  - destruct (c =? 48); [done|]. destruct (is_digit c); [|done].
    rewrite digits_app. by destruct (digits s).
Qed.

Lemma match_frac_app (s : str) :
  match_frac (s ++ t) = ((match_frac s).1, (match_frac s).2 ++ t).
Proof.
  unfold match_frac. destruct s as [|c s].
  - simpl. destruct whitespace_tail as [Ht|(c & t' & Ht & Hc)]; rewrite Ht; [done|].
    by destruct (whitespace_is_not c Hc) as (_ & _ & _ & -> & _).
  - cbn [app]. destruct (c =? 46); [|done].
    rewrite digits_app. by destruct (digits s) as [[|d ds] rest].
Qed.

Lemma match_exp_app (s : str) :
  match_exp (s ++ t) = ((match_exp s).1, (match_exp s).2 ++ t).
Proof.
  unfold match_exp. destruct s as [|c s].
  - simpl. destruct whitespace_tail as [Ht|(c & t' & Ht & Hc)]; rewrite Ht; [done|].
    by destruct (whitespace_is_not c Hc) as (_ & _ & _ & _ & -> & -> & _).
  - cbn [app]. destruct ((c =? 101) || (c =? 69)); [|done].
    destruct s as [|c1 s].
    + simpl.
      destruct whitespace_tail as [Ht|(c1 & t' & Ht & Hc)]; rewrite Ht; [done|].
      destruct (whitespace_is_not c1 Hc) as (Hd & -> & -> & _).
      simpl. by rewrite Hd.
    + cbn [app]. destruct ((c1 =? 45) || (c1 =? 43)).
      * rewrite digits_app. by destruct (digits s) as [[|d ds] rest].
      * pose proof (digits_app (c1 :: s)) as Hd. cbn [app] in Hd. rewrite Hd.
        by destruct (digits (c1 :: s)) as [[|d ds] rest].
Qed.

Lemma match_number_app (s : str) :
  match_number (s ++ t)
  = (fun '(i, fr, ex, rest) => (i, fr, ex, rest ++ t)) <$> match_number s.
Proof.
  unfold match_number. rewrite match_integer_app.
  destruct (match_integer s) as [[i s1]|]; [|done]. simpl.
  rewrite match_frac_app. destruct (match_frac s1) as [fr s2]. simpl.
  rewrite match_exp_app. by destruct (match_exp s2) as [ex s3].
Qed.

(** A name without whitespace starts the text with [t] after it when it
    starts the text. *)
Lemma startswith_app (name s : str) :
  Forall (fun c => is_whitespace c = false) name ->
  Str.startswith name (s ++ t) = Str.startswith name s.
Proof.
  unfold Str.startswith. intros Hname. revert s.
  induction Hname as [|a name Ha _ IH]; intros s; [done|].
  destruct s as [|b s].
  - simpl. destruct whitespace_tail as [Ht|(c & t' & Ht & Hc)]; rewrite Ht; [done|].
    rewrite !bool_decide_false; [done|].
    simpl. intros [= -> _]. congruence.
  - specialize (IH s). cbn [app length take]. unfold char in *.
    assert (IH' : take (length name) (s ++ t) = name ↔ take (length name) s = name).
    { rewrite <- (bool_decide_eq_true (take _ (s ++ t) = name)).
      rewrite <- (bool_decide_eq_true (take _ s = name)). by rewrite IH. }
    apply bool_decide_ext. split; intros [= -> Heq]; f_equal; by apply IH'.
Qed.

Lemma startswith_drop (name s : str) :
  Str.startswith name s = true ->
  drop (length name) (s ++ t) = drop (length name) s ++ t.
Proof.
  unfold Str.startswith. intros Hs%bool_decide_eq_true_1.
  rewrite drop_app_le; [done|]. rewrite <- Hs at 1. rewrite length_take. lia.
Qed.

Section Scanner.
Variable parse_constant : str -> result value.

Lemma scan_scalar_app (nextchar : char) (s : str) (v : value) (rest : str) :
  scan_scalar parse_constant nextchar s = Ok (v, rest) ->
  scan_scalar parse_constant nextchar (s ++ t) = Ok (v, rest ++ t).
Proof.
  unfold scan_scalar.
  rewrite !startswith_app by (by repeat constructor).
  rewrite match_number_app.
  do 3 (match goal with
        | |- (if ?b then _ else _) = _ -> _ =>
            let E := fresh "E" in
            destruct b eqn:E; cbn beta iota;
            [apply andb_prop in E as [_ E]; intros [= <- <-];
             do 2 f_equal; exact (startswith_drop _ s E)|]
        end).
  destruct (match_number s) as [[[[i fr] ex] r]|];
    cbn [fmap option_fmap option_map].
  { destruct (_ || _); by intros [= <- <-]. }
  do 3 (match goal with
        | |- (if ?b then _ else _) = _ -> _ =>
            let E := fresh "E" in
            destruct b eqn:E; cbn beta iota;
            [apply andb_prop in E as [_ E];
             destruct (parse_constant _) as [v0|]; [|done];
             cbn [mbind result_bind]; intros [= <- <-];
             do 2 f_equal; exact (startswith_drop _ s E)|]
        end).
  done.
Qed.

(** What the scanner returns on a text it returns with more fuel and with
    whitespace after the text, which it leaves unread. *)
Lemma scanner_app (fuel : nat) :
  ∀ (s : str) (fuel' : nat),
    (fuel <= fuel')%nat ->
    (∀ v rest, scan_once parse_constant fuel s = Ok (v, rest) ->
               scan_once parse_constant fuel' (s ++ t) = Ok (v, rest ++ t)) ∧
    (∀ pairs r rest,
        JSONObject parse_constant fuel s pairs = Ok (r, rest) ->
        JSONObject parse_constant fuel' (s ++ t) pairs = Ok (r, rest ++ t)) ∧
    (∀ values v rest,
        JSONArray parse_constant fuel s values = Ok (v, rest) ->
        JSONArray parse_constant fuel' (s ++ t) values = Ok (v, rest ++ t)).
Proof.
  induction fuel as [|fuel IH]; intros s fuel' Hle; [by split_and!|].
  destruct fuel' as [|fuel']; [lia|].
  assert (Hfuel : (fuel <= fuel')%nat) by lia. clear Hle.
  split_and!.
  - intros v rest. destruct s as [|nextchar s1]; [done|].
    cbn [app scan_once].
    destruct (nextchar =? 34).
    { intros ([x r] & Hx & [= <- <-])%bind_Ok_inv.
      by rewrite (scanstring_app t _ _ _ Hx). }
    destruct (nextchar =? 123).
    { intros ([prs r] & Hobj & [= <- <-])%bind_Ok_inv.
      destruct (skip_whitespace s1) as [|c s2] eqn:Hskip.
      - by destruct fuel.
      - rewrite (skip_whitespace_app_cons _ t _ _ Hskip).
        destruct (c =? 125); [by simplify_eq|].
        apply (IH (c :: s2) fuel' Hfuel) in Hobj. cbn [app] in Hobj.
        by rewrite Hobj. }
    destruct (nextchar =? 91).
    { destruct (skip_whitespace s1) as [|c s2] eqn:Hskip.
      - by destruct fuel as [|[|fuel0]].
      - rewrite (skip_whitespace_app_cons _ t _ _ Hskip).
        destruct (c =? 93); [by intros [= <- <-]|].
        intros Harr. by apply (IH (c :: s2) fuel' Hfuel) in Harr. }
    apply (scan_scalar_app nextchar (nextchar :: s1)).
  - intros pairs r rest. destruct s as [|quote s1]; [done|].
    cbn [app JSONObject].
    destruct (quote =? 34); [|done].
    intros ([key s2] & Hkey & Hr)%bind_Ok_inv.
    rewrite (scanstring_app t _ _ _ Hkey).
    cbn [mbind result_bind]. cbn beta iota.
    destruct (skip_whitespace s2) as [|colon s3] eqn:Hskip2; [done|].
    rewrite (skip_whitespace_app_cons _ t _ _ Hskip2).
    destruct (colon =? 58); [|done].
    apply bind_Ok_inv in Hr as ([val s4] & Hval & Hr).
    destruct (skip_whitespace s3) as [|c3 s3'] eqn:Hskip3.
    { by destruct fuel. }
    rewrite (skip_whitespace_app_cons _ t _ _ Hskip3).
    apply (IH (c3 :: s3') fuel' Hfuel) in Hval. cbn [app] in Hval.
    eapply bind_Ok; [exact Hval|]. cbn beta iota.
    cbn beta iota zeta in Hr.
    destruct (skip_whitespace s4) as [|c s5] eqn:Hskip4; [done|].
    rewrite (skip_whitespace_app_cons _ t _ _ Hskip4).
    destruct (c =? 125); [by simplify_eq|].
    destruct (c =? 44); [|done].
    destruct (skip_whitespace s5) as [|c5 s5'] eqn:Hskip5.
    { by destruct fuel. }
    rewrite (skip_whitespace_app_cons _ t _ _ Hskip5).
    by apply (IH (c5 :: s5') fuel' Hfuel) in Hr.
  - intros values v rest. cbn [JSONArray].
    intros ([val s1] & Hval & Hr)%bind_Ok_inv.
    apply (IH s fuel' Hfuel) in Hval.
    eapply bind_Ok; [exact Hval|]. cbn beta iota.
    cbn beta iota zeta in Hr.
    destruct (skip_whitespace s1) as [|c s2] eqn:Hskip1; [done|].
    rewrite (skip_whitespace_app_cons _ t _ _ Hskip1).
    destruct (c =? 93); [by simplify_eq|].
    destruct (c =? 44); [|done].
    destruct (skip_whitespace s2) as [|c2 s2'] eqn:Hskip2.
    { by destruct fuel as [|[|fuel0]]. }
    rewrite (skip_whitespace_app_cons _ t _ _ Hskip2).
    by apply (IH (c2 :: s2') fuel' Hfuel) in Hr.
Qed.

End Scanner.
End Tail.

(** X10: whitespace (spaces, tabs, line feeds, carriage returns) before
    and after a text that [json.loads] accepts changes nothing to the value
    it returns; a manifest may end with a newline. *)
Theorem loads_ignores_surrounding_whitespace (before text after : str) (v : value) :
  whitespace before -> whitespace after ->
  loads text = Ok v ->
  loads (before ++ text ++ after) = Ok v.
Proof.
  intros Hbefore Hafter. unfold loads.
  destruct (Str.startswith [0xFEFF] text) eqn:HBOM; [done|].
  unfold decode. intros ([obj rest] & Hscan & Hrest)%bind_Ok_inv.
  destruct (skip_whitespace rest) eqn:Hskip; [|done]. simplify_eq.
  destruct (skip_whitespace text) as [|c r] eqn:Htext; [done|].
  assert (Hno : Str.startswith [0xFEFF] (before ++ text ++ after) = false).
  { unfold Str.startswith in *. apply bool_decide_eq_false_2.
    apply bool_decide_eq_false_1 in HBOM.
    destruct Hbefore as [|b before Hb _].
    - destruct text as [|x text]; [done|]. simpl in *. by rewrite take_0 in *.
    - simpl. rewrite take_0. by intros [= ->]. }
  rewrite Hno, skip_whitespace_prefix by done.
  rewrite (skip_whitespace_app_cons _ after _ _ Htext).
  eapply (scanner_app after Hafter _CONSTANTS _ (c :: r)) in Hscan as ->.
  - cbn [mbind result_bind]. cbn beta iota.
    by rewrite (skip_whitespace_app_nil _ _ Hskip Hafter).
  - rewrite !length_app. lia.
Qed.

End Padding.

(** ** More about what is printed *)



Section OneLine.
Context `{Platform}.
Import builtins.








End OneLine.



(** ** More about the manifest path *)

Section MorePaths.
Import posixpath.

Lemma isabs_head (s : str) : isabs s = true ↔ head s = Some sep_char.
Proof.
  unfold isabs. rewrite startswith_sep. apply bool_decide_eq_true.
Qed.

Lemma rstrip_nil (s : str) :
  Str.rstrip sep_char s = [] -> s = Str.times sep_char (length s).
Proof.
  induction s as [|x s IH]; [done|]. simpl.
  destruct (Str.rstrip sep_char s) as [|y r]; [|done].
  destruct (N.eqb_spec x sep_char) as [->|]; [|done].
  intros _. unfold Str.times in *. simpl. by rewrite <- IH.
Qed.

Lemma rstrip_head (s : str) :
  Str.rstrip sep_char s ≠ [] -> head (Str.rstrip sep_char s) = head s.
Proof.
  destruct s as [|x s]; [done|]. simpl.
  destruct (Str.rstrip sep_char s) as [|y r]; [|done].
  by destruct (x =? sep_char).
Qed.

Lemma rfind_succ_head (x : N) (s : list N) :
  x = sep_char -> ∃ i, Str.rfind_succ sep_char (x :: s) = S i.
Proof.
  intros ->. simpl. destruct (Str.rfind_succ sep_char s); by eexists.
Qed.

(** The directory of an absolute path is absolute. *)
Lemma dirname_isabs (p : str) : isabs p = true -> isabs (dirname p) = true.
Proof.
  rewrite !isabs_head. destruct p as [|x p]; [done|]. intros [= ->].
  unfold dirname. destruct (rfind_succ_head sep_char p eq_refl) as [i ->].
  cbn [take]. set (head := sep_char :: take i p).
  rewrite (bool_decide_false (head = [])) by done. cbn [negb andb].
  destruct (decide (head = Str.times sep_char (length head))) as [Heq|Hne].
  - by rewrite bool_decide_true.
  - rewrite bool_decide_false by done. cbn [negb].
    rewrite rstrip_head; [done|]. intros Hnil. by apply rstrip_nil in Hnil.
Qed.

(** Joining a path to an absolute one gives an absolute path. *)
Lemma join_isabs (a b : str) : isabs a = true -> isabs (join a [b]) = true.
Proof.
  rewrite !isabs_head. intros Ha. unfold join. cbn [fold_left].
  rewrite startswith_sep. case_bool_decide as Hb; [done|].
  destruct a as [|x a]; [done|].
  by destruct (_ || _).
Qed.

Lemma split_sep_free (s : str) :
  Forall (fun c => sep_char ∉ c) (Str.split sep_char s).
Proof.
  induction s as [|x s IH]; simpl.
  - repeat constructor. apply not_elem_of_nil.
  - destruct (N.eqb_spec x sep_char) as [->|Hne].
    + constructor; [apply not_elem_of_nil|done].
    + destruct (Str.split sep_char s) as [|h t].
      * constructor; [|done]. apply not_elem_of_cons. split; [done|].
        apply not_elem_of_nil.
      * inversion IH; subst. constructor; [|done]. by apply not_elem_of_cons.
Qed.

(** In a path that starts with a slash, the loop of [normpath] keeps
    nothing but proper components. *)
Lemma normpath_step_proper (n : nat) (acc : list str) (comp : str) :
  n ≠ 0%nat -> Forall proper acc -> sep_char ∉ comp ->
  Forall proper (normpath_step n acc comp).
Proof.
  intros Hn Hacc Hcomp. unfold normpath_step.
  destruct (decide (comp = [])) as [->|Hnil]; [done|].
  destruct (decide (comp = curdir)) as [->|Hcur]; [done|].
  rewrite !(bool_decide_false (comp = _)) by done. cbn [orb].
  destruct (decide (comp = pardir)) as [->|Hpar].
  - rewrite (bool_decide_true (pardir = pardir)) by done.
    rewrite (bool_decide_false (n = 0%nat)) by done. cbn [negb orb andb].
    destruct acc as [|c acc _] using rev_ind; [done|].
    apply Forall_app in Hacc as [Hacc Hc].
    inversion Hc as [|? ? (_ & _ & Hc') _]; subst.
    rewrite last_snoc, (bool_decide_false (_ ++ _ = [])) by (by destruct acc).
    rewrite (bool_decide_false (Some c = _)) by (by intros [= ->]).
    cbn [negb andb]. by rewrite removelast_last.
  - rewrite (bool_decide_false (comp = pardir)) by done. cbn [negb orb].
    apply Forall_app. split; [done|]. by repeat constructor.
Qed.

Lemma normpath_steps_proper_abs (n : nat) (comps acc : list str) :
  n ≠ 0%nat -> Forall proper acc -> Forall (fun c => sep_char ∉ c) comps ->
  Forall proper (fold_left (normpath_step n) comps acc).
Proof.
  intros Hn. revert acc.
  induction comps as [|c comps IH]; intros acc Hacc Hcomps; [done|].
  inversion Hcomps; subst. simpl. apply IH; [|done].
  by apply normpath_step_proper.
Qed.

(** The normal form of an absolute path: one slash, or two, and proper
    components with single slashes between them. *)
Lemma normpath_isabs (p : str) :
  isabs p = true ->
  ∃ (n : nat) (comps : list str),
    (n = 1 ∨ n = 2)%nat ∧ Forall proper comps
    ∧ normpath p = Str.times sep_char n ++ Str.join sep comps.
Proof.
  intros Habs. unfold normpath.
  rewrite bool_decide_false by (by destruct p).
  unfold isabs in Habs. rewrite Habs.
  set (n := if Str.startswith (Str.times sep_char 2) p
                && negb (Str.startswith (Str.times sep_char 3) p)
            then 2%nat else 1%nat).
  assert (Hn : (n = 1 ∨ n = 2)%nat) by (subst n; case_match; auto).
  exists n, (fold_left (normpath_step n) (Str.split sep_char p) []).
  split_and!; [done| |].
  - apply normpath_steps_proper_abs; [lia|done|apply split_sep_free].
  - rewrite bool_decide_false; [done|]. by destruct Hn as [-> | ->].
Qed.

Lemma times_last (n : nat) :
  (n = 1 ∨ n = 2)%nat -> last (Str.times sep_char n) = Some sep_char.
Proof. by intros [-> | ->]. Qed.

(** Joining one component to a normal absolute path. *)
Lemma join_normal (n : nat) (comps : list str) (b : str) (bs : list str) :
  (n = 1 ∨ n = 2)%nat -> Forall component comps -> component b ->
  join (Str.times sep_char n ++ Str.join sep comps) (b :: bs)
  = join (Str.times sep_char n ++ Str.join sep (comps ++ [b])) bs.
Proof.
  intros Hn Hall [Hb Hsep]. unfold join. cbn [fold_left]. f_equal.
  rewrite startswith_sep, bool_decide_false.
  2:{ destruct b as [|x b]; [done|]. intros [= ->]. apply Hsep. constructor. }
  rewrite endswith_sep.
  assert (Hpath : Str.times sep_char n ++ Str.join sep comps ≠ [])
    by (by destruct Hn as [-> | ->]).
  case_bool_decide; [done|]. cbn [orb].
  destruct (decide (comps = [])) as [->|Hne].
  - cbn [Str.join]. rewrite app_nil_r.
    by rewrite bool_decide_true by (by apply times_last).
  - destruct (join_last comps Hne Hall) as [Hnil Hlast].
    rewrite join_snoc by done. rewrite bool_decide_false.
    + by rewrite <- !app_assoc.
    + destruct (Str.join sep comps) as [|x l _] using rev_ind; [done|].
      rewrite app_assoc, last_snoc. by rewrite last_snoc in Hlast.
Qed.

End MorePaths.

Section ManifestPath.
Import posixpath.

(** X4: when [__file__] is absolute, the manifest path does not depend on
    the working directory. *)
Theorem manifest_path_ignores_cwd (file cwd1 cwd2 : str) :
  isabs file = true ->
  PACKAGE_JSON {| __file__ := file; getcwd := cwd1 |}
  = PACKAGE_JSON {| __file__ := file; getcwd := cwd2 |}.
Proof.
  intros Habs. unfold PACKAGE_JSON, BASE_DIR, abspath. cbn [__file__ getcwd].
  by rewrite (join_isabs _ pardir (dirname_isabs file Habs)).
Qed.

(** X5: when the working directory is absolute, the manifest path is in
    normal form whatever [__file__] is: it starts with one slash, or two,
    and goes on with proper components separated by single slashes, so
    that it has no empty component, no [.] and no [..]; its last two
    components are [superset-frontend] and [package.json]. *)
Theorem manifest_path_is_normal (env : Env) :
  isabs (getcwd env) = true ->
  ∃ (n : nat) (comps : list str),
    (n = 1 ∨ n = 2)%nat ∧ Forall proper comps
    ∧ PACKAGE_JSON env
      = Str.times sep_char n
        ++ Str.join sep (comps ++ [u "superset-frontend"; u "package.json"]).
Proof.
  intros Hcwd. unfold PACKAGE_JSON, BASE_DIR, abspath.
  set (path := join (dirname (__file__ env)) [pardir]).
  assert (Habs : isabs (if isabs path then path else join (getcwd env) [path])
                 = true).
  { destruct (isabs path) eqn:Hpath; [done|]. by apply join_isabs. }
  destruct (normpath_isabs _ Habs) as (n & comps & Hn & Hcomps & ->).
  exists n, comps. split_and!; [done|done|].
  assert (Hname : ∀ c, bool_decide (c ≠ [] ∧ sep_char ∉ c) = true -> component c).
  { intros c Hc. by apply bool_decide_eq_true_1 in Hc. }
  rewrite join_normal
    by (done || (by apply proper_component) || (apply Hname; by vm_compute)).
  rewrite join_normal.
  - unfold join. cbn [fold_left]. by rewrite <- app_assoc.
  - done.
  - apply Forall_app. split; [by apply proper_component|].
    constructor; [|constructor]. apply Hname. by vm_compute.
  - apply Hname. by vm_compute.
Qed.

End ManifestPath.

(** ** More about one invocation *)

Section Invocations.
Context `{Platform} (env : Env).

Abbreviation MANIFEST := (PACKAGE_JSON env).
Abbreviation VERSION := (u "version").



(** X3: standard output tells success from failure.  An invocation adds
    text to standard output exactly when it ends with exit status 0; what
    it adds ends with a newline; and what was on standard output before
    stays in front of it. *)
Theorem output_iff_success (w : World) :
  (status env w = 0%Z ↔ output env w ≠ [])
  ∧ (output env w = [] ∨ last (output env w) = Some 10)
  ∧ stdout (get_version env w).2 = stdout w ++ output env w.
Proof.
  rewrite status_run, output_run, get_version_run. cbn [snd stdout].
  destruct (version_string env (fs w !! MANIFEST)) as [v|e];
    cbn [exit_status].
  - split_and!.
    + split; [|done]. intros _. by destruct (builtins.str_ v).
    + right. by rewrite last_snoc.
    + done.
  - split_and!; [|by left|by rewrite app_nil_r]. by split.
Qed.


(** X11: a manifest that is empty, or holds nothing but whitespace, is
    rejected like any text that is no value: the invocation raises
    [JSONDecodeError], prints nothing and ends with exit status 1. *)
Theorem blank_manifest_fails (w : World) (text : str) :
  fs w !! MANIFEST = Some (RegularFile true text) ->
  whitespace text ->
  (get_version env w).1 = Raise (JSONDecodeError "Expecting value")
  ∧ status env w = 1%Z
  ∧ output env w = [].
Proof.
  intros Hfile Hblank.
  assert (Hloads : json.loads text = Raise (JSONDecodeError "Expecting value")).
  { unfold json.loads, Str.startswith. rewrite bool_decide_false.
    - unfold json.decode. by rewrite (skip_whitespace_all text Hblank).
    - destruct Hblank as [|c text Hc _]; [done|].
      simpl. rewrite take_0. by intros [= ->]. }
  rewrite status_run, output_run, get_version_run, Hfile.
  cbn [version_string]. by rewrite Hloads.
Qed.

End Invocations.

(** ** The properties at work in the example installation *)

Section Examples.
#[local] Existing Instance example_platform.





Lemma missing_manifest_fails_witness :
  (∀ text, fs empty_world !! PACKAGE_JSON example_env
           ≠ Some (RegularFile true text))
  ∧ (∃ e, (get_version example_env empty_world).1 = Raise e ∧ is_OSError e
          ∧ (fs empty_world !! PACKAGE_JSON example_env = None ->
             e = FileNotFoundError (PACKAGE_JSON example_env)))
  ∧ status example_env empty_world = 1%Z
  ∧ output example_env empty_world = []
  ∧ stdout (get_version example_env empty_world).2 = stdout empty_world.
Proof.
  assert (Hno : ∀ text, fs empty_world !! PACKAGE_JSON example_env
                        ≠ Some (RegularFile true text)).
  { intros text. vm_compute. discriminate. }
  split; [exact Hno|].
  exact (missing_manifest_fails example_env empty_world Hno).
Defined.


Lemma missing_version_key_fails_witness :
  let text := q "{'name': 'superset'}" in
  let w := example_world (RegularFile true text) in
  json.loads text = Ok (PyDict [(u "name", PyStr (u "superset"))])
  ∧ (get_version example_env w).1 = Raise (KeyError (u "version"))
  ∧ status example_env w = 1%Z
  ∧ output example_env w = []
  ∧ stdout (get_version example_env w).2 = stdout w.
Proof.
  intros text w.
  assert (Hloads : json.loads text = Ok (PyDict [(u "name", PyStr (u "superset"))]))
    by (vm_compute; reflexivity).
  split; [exact Hloads|].
  apply (missing_version_key_fails example_env w text
           [(u "name", PyStr (u "superset"))]); [|exact Hloads|].
  - vm_compute. reflexivity.
  - vm_compute. reflexivity.
Defined.

Lemma resolver_is_deterministic_witness :
  let text := q "{'version': '4.1.0'}" in
  let w1 := example_world (RegularFile true text) in
  let w2 := {| fs := fs w1; open_files := {[ 7%nat := u "unread" ]};
               opened := [u "/etc/hostname"]; stdout := u "earlier output" |} in
  (output example_env w1 = output example_env w2
   ∧ status example_env w1 = status example_env w2)
  ∧ fs (get_version example_env w1).2 = fs w1
  ∧ output example_env (get_version example_env w1).2 = output example_env w1
  ∧ status example_env (get_version example_env w1).2 = status example_env w1.
Proof.
  intros text w1 w2.
  apply (resolver_is_deterministic example_env w1 w2). reflexivity.
Defined.


Lemma non_object_manifest_fails_witness :
  let text := q "['4.1.0']" in
  let w := example_world (RegularFile true text) in
  (∃ e, (get_version example_env w).1 = Raise e
        ∧ is_TypeError e
        ∧ ¬ is_OSError e ∧ ¬ is_JSONDecodeError e ∧ ¬ is_KeyError e)
  ∧ status example_env w = 1%Z
  ∧ output example_env w = []
  ∧ stdout (get_version example_env w).2 = stdout w.
Proof.
  intros text w.
  apply (non_object_manifest_fails example_env w text (PyList [PyStr (u "4.1.0")])).
  - vm_compute. reflexivity.
  - vm_compute. reflexivity.
  - intros d. discriminate.
Defined.



Lemma manifest_path_ignores_cwd_witness :
  let file := u "/app/docker/get_version.py" in
  posixpath.isabs file = true
  ∧ PACKAGE_JSON {| __file__ := file; getcwd := u "/app" |}
    = PACKAGE_JSON {| __file__ := file; getcwd := u "/tmp/build" |}.
Proof.
  intros file. split; [vm_compute; reflexivity|].
  apply (manifest_path_ignores_cwd file (u "/app") (u "/tmp/build")).
  vm_compute. reflexivity.
Defined.

Lemma manifest_path_is_normal_witness :
  let env := {| __file__ := u "docker/../docker/./get_version.py";
                getcwd := u "/app" |} in
  posixpath.isabs (getcwd env) = true
  ∧ ∃ (n : nat) (comps : list str),
      (n = 1 ∨ n = 2)%nat ∧ Forall proper comps
      ∧ PACKAGE_JSON env
        = Str.times posixpath.sep_char n
          ++ Str.join posixpath.sep
               (comps ++ [u "superset-frontend"; u "package.json"]).
Proof.
  intros env. split; [vm_compute; reflexivity|].
  apply (manifest_path_is_normal env). vm_compute. reflexivity.
Defined.

Lemma plain_example (s : str) :
  forallb (fun c => negb (c =? 34) && negb (c =? 92) && (31 <? c)) s = true ->
  plain s.
Proof.
  intros Hs. apply Forall_forall. intros c Hc.
  rewrite forallb_forall in Hs. specialize (Hs c).
  rewrite <- list_elem_of_In in Hs. specialize (Hs Hc).
  apply andb_prop in Hs as [[H34 H92]%andb_prop H31].
  apply negb_true_iff, N.eqb_neq in H34, H92. apply N.ltb_lt in H31.
  by split_and!.
Defined.

Lemma written_object_round_trip_witness :
  let members := [(u "name", u "superset"); (u "version", u "4.1.0")] in
  Forall (fun kv => plain kv.1 ∧ plain kv.2) members
  ∧ NoDup members.*1
  ∧ json.loads (q "{'name': 'superset', 'version': '4.1.0'}")
    = Ok (PyDict [(u "name", PyStr (u "superset"));
                  (u "version", PyStr (u "4.1.0"))]).
Proof.
  intros members.
  assert (Hplain : Forall (fun kv => plain kv.1 ∧ plain kv.2) members).
  { unfold members.
    repeat (apply Forall_cons_2;
            [split; apply plain_example; vm_compute; reflexivity|]).
    apply Forall_nil_2. }
  assert (Hkeys : NoDup members.*1).
  { apply (bool_decide_unpack _). vm_compute. exact I. }
  split; [exact Hplain|]. split; [exact Hkeys|].
  exact (written_object_round_trip members Hplain Hkeys).
Defined.

Lemma loads_distinct_keys_witness :
  let text := q "{'version': '1.0.0', 'version': 2, 'engines': {'node': 18, 'node': 20}}" in
  let v := PyDict [(u "version", PyInt 2);
                   (u "engines", PyDict [(u "node", PyInt 20)])] in
  json.loads text = Ok v ∧ every distinct_keys v.
Proof.
  intros text v.
  assert (Hloads : json.loads text = Ok v) by (vm_compute; reflexivity).
  split; [exact Hloads|].
  exact (loads_distinct_keys text v Hloads).
Defined.


Lemma loads_ignores_surrounding_whitespace_witness :
  let text := q "{'version': '4.1.0'}" in
  let before := [32; 9] in
  let after := [13; 10] in
  whitespace before ∧ whitespace after
  ∧ json.loads text = Ok (PyDict [(u "version", PyStr (u "4.1.0"))])
  ∧ json.loads (before ++ text ++ after)
    = Ok (PyDict [(u "version", PyStr (u "4.1.0"))]).
Proof.
  intros text before after.
  assert (Hbefore : whitespace before) by (by repeat constructor).
  assert (Hafter : whitespace after) by (by repeat constructor).
  assert (Hloads : json.loads text
                   = Ok (PyDict [(u "version", PyStr (u "4.1.0"))]))
    by (vm_compute; reflexivity).
  split; [exact Hbefore|]. split; [exact Hafter|]. split; [exact Hloads|].
  exact (loads_ignores_surrounding_whitespace before text after _
           Hbefore Hafter Hloads).
Defined.

Lemma blank_manifest_fails_witness :
  let text := [32; 10] in
  let w := example_world (RegularFile true text) in
  fs w !! PACKAGE_JSON example_env = Some (RegularFile true text)
  ∧ whitespace text
  ∧ (get_version example_env w).1 = Raise (JSONDecodeError "Expecting value")
  ∧ status example_env w = 1%Z
  ∧ output example_env w = [].
Proof.
  intros text w.
  assert (Hblank : whitespace text) by (by repeat constructor).
  split; [vm_compute; reflexivity|]. split; [exact Hblank|].
  apply (blank_manifest_fails example_env w text); [|exact Hblank].
  vm_compute. reflexivity.
Defined.


End Examples.
